(** * The SSO redirect screen: app/screens/sso/sso_with_redirect_url.tsx

    A shallow embedding of the component [SSOWithRedirectURL] and of the
    part of its environment it talks to (the Linking listener registry,
    the timer queue, the collaborators it calls), followed by the
    properties of the login flow.

    Conventions of the embedding.
    - A handler ([init], [onURLChange], [onError]) is a computation in
      the monad [M]: it reads and updates the [State] and logs every
      call it makes to a collaborator as a [Call].
    - An [await] returns the collaborator's answer in the same step,
      and the promises awaited are taken to resolve. In [step] a state
      update, the render it causes and the effects of that render are
      part of the step of the event that caused them; [tick] lets the
      effects run on their own, after the handler.
    - The parent keeps the value it receives through [setLoginError]
      and passes it down again as [loginError].
    - JavaScript strings are [string]s, [string | undefined] is
      [option string], and truthiness is written out ([truthy],
      [truthyO]). *)

From Stdlib Require Import String Ascii List Bool Arith Lia.
From Stdlib Require Import QArith.
Close Scope Q_scope.
Import ListNotations.
Open Scope string_scope.

(** ** JavaScript values *)

(** [s] as a condition: only the empty string is falsy. *)
Definition truthy (s : string) : bool := negb (s =? "").

(** [x] as a condition, for [x : string | undefined]. *)
Definition truthyO (x : option string) : bool :=
  match x with
  | Some s => truthy s
  | None => false
  end.

(** The string behind a truthy [string | undefined]. *)
Definition str (x : option string) : string :=
  match x with
  | Some s => s
  | None => ""
  end.

(** [s.startsWith(p)] *)
Fixpoint startsWith (p s : string) : bool :=
  match p, s with
  | EmptyString, _ => true
  | String a p', String b s' => Ascii.eqb a b && startsWith p' s'
  | String _ _, EmptyString => false
  end.

(** Lower case of an ASCII letter, every other byte unchanged. *)
Definition toLower (c : ascii) : ascii :=
  let n := nat_of_ascii c in
  if (65 <=? n)%nat && (n <=? 90)%nat then ascii_of_nat (n + 32) else c.

Fixpoint lower (s : string) : string :=
  match s with
  | EmptyString => EmptyString
  | String c s' => String (toLower c) (lower s')
  end.

(** [p] occurs in [s]. *)
Fixpoint includes (p s : string) : bool :=
  startsWith p s ||
  match s with
  | EmptyString => false
  | String _ s' => includes p s'
  end.

(** [s.match(/p/i)] as a condition, for a pattern [p] of lower-case
    letters and spaces: the pattern occurs in [s] up to ASCII case. *)
Definition matchesIgnoreCase (p s : string) : bool := includes p (lower s).

(** A plain object with string values, as [urlParse(url, true).query]
    and the [query] literal of [init] are: the own properties in
    insertion order, no key twice. *)
Module Obj.

Definition t := list (string * string).

Definition keys (o : t) : list string := map fst o.

Definition wf (o : t) : Prop := NoDup (keys o).

(** [o[k]] *)
Fixpoint get (k : string) (o : t) : option string :=
  match o with
  | [] => None
  | (k', v) :: o' => if k' =? k then Some v else get k o'
  end.

(** [o[k] = v]: an existing property keeps its place. *)
Fixpoint set (k v : string) (o : t) : t :=
  match o with
  | [] => [(k, v)]
  | (k', v') :: o' =>
      if k' =? k then (k', v) :: o' else (k', v') :: set k v o'
  end.

(** [{...o}]: the properties of [o] copied, in order, into a fresh
    object. *)
Definition spread (o : t) : t :=
  fold_left (fun acc kv => set (fst kv) (snd kv) acc) o [].

End Obj.

(** [Platform.OS] *)
Inductive OS := ios | android | macos | windows | web.

Definition OS_eqb (a b : OS) : bool :=
  match a, b with
  | ios, ios | android, android | macos, macos
  | windows, windows | web, web => true
  | _, _ => false
  end.

(** The argument [e : unknown] of [onError], as far as [onError] looks
    at it: a falsy value, a string, or an object whose [message]
    property is a string or is not. *)
Inductive Unknown :=
| Undefined
| Null
| Str (s : string)
| Object (message : option string).

Definition truthyU (e : Unknown) : bool :=
  match e with
  | Undefined | Null => false
  | Str s => truthy s
  | Object _ => true
  end.

(** Modelled from the spec: [isErrorWithMessage] of [@utils/errors] is
    not among the sources; by its use as a type guard for [e.message],
    it holds of the objects that carry a string [message]. *)
Definition isErrorWithMessage (e : Unknown) : bool :=
  match e with
  | Object (Some _) => true
  | _ => false
  end.

(** Modelled from the spec: the result of the remote token exchange,
    [{token, csrf} | errorResult]; [fetchSessionTokenFromCodeChallenge]
    of [@actions/remote/session] is not among the sources. *)
Inductive SessionResponse :=
| SessionTokens (token csrf : string)
| SessionError (error : Unknown).


(** ** The environment of the component *)

(** The constants and the collaborators that the component imports. *)
Record Env := {
  (** [Sso.REDIRECT_URL_SCHEME], [Sso.REDIRECT_URL_SCHEME_DEV] *)
  REDIRECT_URL_SCHEME : string;
  REDIRECT_URL_SCHEME_DEV : string;
  isBetaApp : bool;
  Platform_OS : OS;
  (** [intl.formatMessage({id, defaultMessage})] *)
  formatMessage : string -> string -> string;
  (** [generateSecureRandom(byteLength)]; the first argument counts the
      draws made so far, so that two draws need not agree. *)
  secureRandom : nat -> nat -> string;
  sha256_digest : string -> string;
  urlSafeBase64Encode : string -> string;
  (** [urlParse(url, true)], [parsedUrl.query],
      [parsedUrl.set('query', s)], [parsedUrl.toString()] *)
  Url : Type;
  urlParse : string -> Url;
  Url_query : Url -> Obj.t;
  Url_set_query : string -> Url -> Url;
  Url_toString : Url -> string;
  (** [qs.stringify(query)] *)
  qs_stringify : Obj.t -> string;
  (** the server's answer to the exchange *)
  exchange : string -> string -> string -> SessionResponse
}.

(** The props that carry data; [doSSOLogin] and [setLoginError] are
    calls, [theme] plays no part in the flow. *)
Record Props := {
  loginError0 : string;
  loginUrl : string;
  serverUrl : string
}.

(** What a test double of a collaborator would record. *)
Inductive Call :=
| CreateClient (url : string)
| GenerateSecureRandom (byteLength : nat)
| Sha256 (input : string)
| TryOpenURL (url : string)
| FetchSessionTokenFromCodeChallenge (server challengeToken verifier : string)
| DoSSOLogin (bearerToken csrfToken : string)
| SetLoginError (value : string).

(** ** The state *)

(** The component's own state ([error], [codeVerifier]), the
    [loginError] its parent passes down, and the part of the platform
    that holds what the component registered: the Linking listeners,
    each with the [codeVerifier] its [onURLChange] closed over, and the
    pending timers with their delay. [subscription] and [timeout] are
    what the two cleanup functions hold on to. *)
Record State := mkState {
  mounted : bool;
  error : string;
  loginError : string;
  codeVerifier : option string;
  listeners : list (nat * option string);
  subscription : option nat;
  timers : list (nat * nat);
  timeout : option nat;
  nextId : nat;
  draws : nat
}.

Definition with_error (v : string) (st : State) : State :=
  mkState (mounted st) v (loginError st) (codeVerifier st) (listeners st)
          (subscription st) (timers st) (timeout st) (nextId st) (draws st).

Definition with_loginError (v : string) (st : State) : State :=
  mkState (mounted st) (error st) v (codeVerifier st) (listeners st)
          (subscription st) (timers st) (timeout st) (nextId st) (draws st).

Definition with_codeVerifier (v : option string) (st : State) : State :=
  mkState (mounted st) (error st) (loginError st) v (listeners st)
          (subscription st) (timers st) (timeout st) (nextId st) (draws st).

Definition with_listeners (l : list (nat * option string)) (s : option nat)
    (n : nat) (st : State) : State :=
  mkState (mounted st) (error st) (loginError st) (codeVerifier st) l
          s (timers st) (timeout st) n (draws st).

Definition with_timers (l : list (nat * nat)) (t : option nat) (n : nat)
    (st : State) : State :=
  mkState (mounted st) (error st) (loginError st) (codeVerifier st)
          (listeners st) (subscription st) l t n (draws st).

Definition with_mounted (b : bool) (st : State) : State :=
  mkState b (error st) (loginError st) (codeVerifier st) (listeners st)
          (subscription st) (timers st) (timeout st) (nextId st) (draws st).

Definition with_draws (d : nat) (st : State) : State :=
  mkState (mounted st) (error st) (loginError st) (codeVerifier st)
          (listeners st) (subscription st) (timers st) (timeout st)
          (nextId st) d.

(** ** Handlers as computations *)

Definition M (A : Type) : Type := State -> A * State * list Call.

Definition ret {A} (a : A) : M A := fun st => (a, st, []).

Definition bind {A B} (m : M A) (k : A -> M B) : M B :=
  fun st =>
    let '(a, st1, c1) := m st in
    let '(b, st2, c2) := k a st1 in
    (b, st2, (c1 ++ c2)%list).

Declare Scope m_scope.
Delimit Scope m_scope with M.
Notation "x <- m ;; k" := (bind m (fun x => k))
  (at level 61, m at next level, right associativity) : m_scope.
Notation "m ;; k" := (bind m (fun _ => k))
  (at level 61, right associativity) : m_scope.
Notation "' pat <- m ;; k" := (bind m (fun x => match x with pat => k end))
  (at level 61, pat pattern, m at next level, right associativity) : m_scope.
Open Scope m_scope.

Definition call (c : Call) : M unit := fun st => (tt, st, [c]).

Definition modify (f : State -> State) : M unit := fun st => (tt, f st, []).

Definition final {A} (r : A * State * list Call) : State := snd (fst r).
Definition calls {A} (r : A * State * list Call) : list Call := snd r.

(** ** The component *)

Definition optEqb (a b : option string) : bool :=
  match a, b with
  | Some x, Some y => x =? y
  | None, None => true
  | _, _ => false
  end.

Section Component.

Context (E : Env) (P : Props).

Definition customUrlScheme : string :=
  if isBetaApp E then REDIRECT_URL_SCHEME_DEV E else REDIRECT_URL_SCHEME E.

Definition redirectUrl : string := customUrlScheme ++ "callback".

(** The setters of [useState]: a component that is gone takes no
    update. *)
Definition setError (v : string) : M unit :=
  modify (fun st => if mounted st then with_error v st else st).

Definition setCodeVerifier (v : string) : M unit :=
  modify (fun st => if mounted st then with_codeVerifier (Some v) st else st).

(** The parent keeps what it is handed and passes it down again as
    [loginError]. *)
Definition setLoginError (v : string) : M unit :=
  call (SetLoginError v) ;; modify (with_loginError v).

Definition createClient (url : string) : M unit := call (CreateClient url).

Definition generateSecureRandom (byteLength : nat) : M string :=
  fun st =>
    (secureRandom E (draws st) byteLength,
     with_draws (S (draws st)) st,
     [GenerateSecureRandom byteLength]).

Definition sha256 (input : string) : M string :=
  call (Sha256 input) ;; ret (sha256_digest E input).

Definition tryOpenURL (url : string) : M unit := call (TryOpenURL url).

Definition fetchSessionTokenFromCodeChallenge
    (server challengeToken verifier : string) : M SessionResponse :=
  call (FetchSessionTokenFromCodeChallenge server challengeToken verifier) ;;
  ret (exchange E server challengeToken verifier).

Definition doSSOLogin (bearerToken csrfToken : string) : M unit :=
  call (DoSSOLogin bearerToken csrfToken).

Definition failed_to_open_link_no_browser : string :=
  formatMessage E "mobile.oauth.failed_to_open_link_no_browser"
    "The link failed to open. Please verify that a browser is installed on the device.".

Definition failed_to_open_link : string :=
  formatMessage E "mobile.oauth.failed_to_open_link"
    "The link failed to open. Please try again.".

Definition failed_to_login : string :=
  formatMessage E "mobile.oauth.failed_to_login"
    "Your login attempt failed. Please try again.".

(** [e.message.match(/no activity found to handle intent/i)] as a
    condition; [None] when [e.message] is no string and the call
    throws. *)
Definition messageMatches (e : Unknown) : option bool :=
  match e with
  | Object (Some m) =>
      Some (matchesIgnoreCase "no activity found to handle intent" m)
  | _ => None
  end.

(** [a && b], where [b] is evaluated only if [a] holds. *)
Definition andThen (a : bool) (b : option bool) : option bool :=
  if a then b else Some false.

(** The [message] that [onError] works out; [None] when working it out
    throws. *)
Definition onErrorMessage (e : Unknown) : option string :=
  match andThen (truthyU e && OS_eqb (Platform_OS E) android
                 && isErrorWithMessage e)
                (messageMatches e) with
  | Some true => Some failed_to_open_link_no_browser
  | Some false => Some failed_to_open_link
  | None => None
  end.

(** [onError], the callback that [init] hands to [tryOpenURL]; were it
    to throw, no error would be set. *)
Definition onError (e : Unknown) : M unit :=
  match onErrorMessage e with
  | Some message => setError message
  | None => ret tt
  end.

(** The [query] literal of [init]. *)
Definition loginQuery (codeChallenge : string) : Obj.t :=
  Obj.set "code_challenge" codeChallenge
    (Obj.set "redirect_to" redirectUrl
       (Obj.spread (Url_query E (urlParse E (loginUrl P))))).

Definition init (resetErrors : bool) : M unit :=
  (if resetErrors
   then setError "" ;; setLoginError "" ;; createClient (serverUrl P)
   else ret tt) ;;
  verifier <- generateSecureRandom 100 ;;
  setCodeVerifier verifier ;;
  hash <- sha256 verifier ;;
  let codeChallenge := urlSafeBase64Encode E hash in
  let parsedUrl := urlParse E (loginUrl P) in
  let query := loginQuery codeChallenge in
  let url := Url_toString E (Url_set_query E (qs_stringify E query) parsedUrl) in
  tryOpenURL url.

(** [onURLChange], with the [codeVerifier] of the render that created
    it. *)
Definition onURLChange (codeVerifier : option string) (url : string) : M unit :=
  if truthy url && startsWith redirectUrl url then
    let parsedUrl := urlParse E url in
    let bearerToken := Obj.get "MMAUTHTOKEN" (Url_query E parsedUrl) in
    let csrfToken := Obj.get "MMCSRF" (Url_query E parsedUrl) in
    let codeChallengeToken := Obj.get "MMCHALLENGETOKEN" (Url_query E parsedUrl) in
    '(bearerToken, csrfToken) <-
      (if truthyO codeChallengeToken && truthyO codeVerifier then
         response <- fetchSessionTokenFromCodeChallenge
                       (serverUrl P) (str codeChallengeToken) (str codeVerifier) ;;
         match response with
         | SessionTokens token csrf => ret (Some token, Some csrf)
         | SessionError _ => ret (bearerToken, csrfToken)
         end
       else ret (bearerToken, csrfToken)) ;;
    if truthyO bearerToken && truthyO csrfToken
    then doSSOLogin (str bearerToken) (str csrfToken)
    else setError failed_to_login
  else ret tt.

(** [Linking.addEventListener('url', onURLChange)]: the registry gets a
    new entry, the effect keeps the subscription. *)
Definition addEventListener (cv : option string) : M unit :=
  modify (fun st =>
    with_listeners (listeners st ++ [(nextId st, cv)])%list
                   (Some (nextId st)) (S (nextId st)) st).

(** [listener.remove()] *)
Definition removeListener : M unit :=
  modify (fun st =>
    match subscription st with
    | Some id =>
        with_listeners (filter (fun l => negb (fst l =? id)%nat) (listeners st))
                       (subscription st) (nextId st) st
    | None => st
    end).

(** [setTimeout(() => init(false), ms)] *)
Definition setTimeout (ms : nat) : M unit :=
  modify (fun st =>
    with_timers (timers st ++ [(nextId st, ms)])%list
                (Some (nextId st)) (S (nextId st)) st).

(** [clearTimeout(timeout)] *)
Definition clearTimeout : M unit :=
  modify (fun st =>
    match timeout st with
    | Some id =>
        with_timers (filter (fun t => negb (fst t =? id)%nat) (timers st))
                    (timeout st) (nextId st) st
    | None => st
    end).

(** The body of the first effect: it registers the [onURLChange] of the
    current render. *)
Definition listenerEffect : M unit :=
  fun st => addEventListener (codeVerifier st) st.

(** The body of the second effect. *)
Definition timerEffect : M unit := setTimeout 1000.

(** Before the first render. *)
Definition initial : State :=
  mkState false "" (loginError0 P) None [] None [] None 0 0.

(** The first render, then both effects. *)
Definition mount : M unit :=
  modify (with_mounted true) ;; listenerEffect ;; timerEffect.

(** A later render: the first effect has [codeVerifier] as its only
    dependency, so it is cleaned up and run again when that changed;
    the second effect has none and is not run again. *)
Definition rerender (deps : option string) : M unit :=
  fun st =>
    if mounted st && negb (optEqb deps (codeVerifier st))
    then (removeListener ;; listenerEffect) st
    else ret tt st.

(** What happens to the screen. *)
Inductive Event :=
| UrlOpened (url : string)
| TimerFired (id : nat)
| TryAgainPressed
| OpenURLFailed (e : Unknown)
| Unmounted.

(** Linking hands the event to every registered listener. *)
Fixpoint emit (ls : list (nat * option string)) (url : string) : M unit :=
  match ls with
  | [] => ret tt
  | (_, cv) :: ls' => onURLChange cv url ;; emit ls' url
  end.

(** The "Try again" button is there when an error is shown. *)
Definition showsError (st : State) : bool :=
  truthy (loginError st) || truthy (error st).

(** The text under "Sign in error". *)
Definition errorText (st : State) : string :=
  (if truthy (loginError st) then loginError st else error st) ++ ".".

Definition handle (ev : Event) : M unit :=
  fun st =>
    match ev with
    | UrlOpened url => emit (listeners st) url st
    | TimerFired id =>
        if existsb (fun t => (fst t =? id)%nat) (timers st)
        then (modify (fun st =>
                with_timers (filter (fun t => negb (fst t =? id)%nat) (timers st))
                            (timeout st) (nextId st) st) ;;
              init false) st
        else ret tt st
    | TryAgainPressed =>
        if mounted st && showsError st then init true st else ret tt st
    | OpenURLFailed e => onError e st
    | Unmounted =>
        if mounted st
        then (removeListener ;; clearTimeout ;; modify (with_mounted false)) st
        else ret tt st
    end.

(** One event: its handler, then the render and the effects that the
    handler's state updates cause. *)
Definition step (ev : Event) : M unit :=
  fun st => (handle ev ;; rerender (codeVerifier st)) st.

Fixpoint run (evs : list Event) : M unit :=
  match evs with
  | [] => ret tt
  | ev :: evs' => step ev ;; run evs'
  end.

(** The life of one screen: mounted, then the events in order. *)
Definition session (evs : list Event) : M unit := mount ;; run evs.

Definition reachable (st : State) : Prop :=
  exists evs, st = final (session evs initial).

End Component.

(** ** Notions used in the properties *)

Section Notions.

Context (E : Env) (P : Props).

(** What [setError] leaves of a state. *)
Definition errorSet (v : string) (st : State) : State :=
  if mounted st then with_error v st else st.

(** The end of [onURLChange], once the tokens are settled. *)
Definition finish (bearerToken csrfToken : option string) (st : State)
    : State * list Call :=
  if truthyO bearerToken && truthyO csrfToken
  then (st, [DoSSOLogin (str bearerToken) (str csrfToken)])
  else (errorSet (failed_to_login E) st, []).

(** The verifier that an attempt started in [st] draws, its challenge,
    and the URL that the attempt opens. *)
Definition drawn (st : State) : string := secureRandom E (draws st) 100.

Definition challengeOf (verifier : string) : string :=
  urlSafeBase64Encode E (sha256_digest E verifier).

Definition loginUrlWith (query : Obj.t) : string :=
  Url_toString E
    (Url_set_query E (qs_stringify E query) (urlParse E (loginUrl P))).

(** While the screen is mounted, Linking holds exactly one listener of
    it, the one of the last render, and at most the one timer of the
    first render; afterwards it holds nothing of it. *)
Record Inv (st : State) : Prop := {
  inv_listener :
    mounted st = true ->
    exists id, listeners st = [(id, codeVerifier st)] /\ subscription st = Some id;
  inv_timer :
    mounted st = true ->
    exists id, timeout st = Some id /\
               (timers st = [(id, 1000)] \/ timers st = []);
  inv_gone :
    mounted st = false -> listeners st = [] /\ timers st = []
}.

(** The state a handler leaves behind, before the render: the listener
    of the previous render, which closed over [deps], is still the one
    registered. *)
Record Handled (deps : option string) (st : State) : Prop := {
  handled_mounted : mounted st = true;
  handled_listener :
    exists id, listeners st = [(id, deps)] /\ subscription st = Some id;
  handled_timer :
    exists id, timeout st = Some id /\
               (timers st = [(id, 1000)] \/ timers st = [])
}.

(** The condition of [onError] on the message: up to ASCII case, the
    phrase occurs in it. *)
Definition reportsNoActivity (m : string) : Prop :=
  exists pre post,
    lower m = pre ++ "no activity found to handle intent" ++ post.

End Notions.

(** The two events that start a flow attempt in [st]: the timer of the
    first render fires, or "Try again" is pressed while it is shown. *)
Definition startsAttempt (ev : Event) (st : State) : Prop :=
  (exists id, ev = TimerFired id /\ In id (map fst (timers st))) \/
  (ev = TryAgainPressed /\ showsError st = true).

(** ** Notions used in the properties of whole sessions *)

Section SessionNotions.

Context (E : Env) (P : Props).

(** The stored verifier is what the last draw returned, and there is
    none before the first draw. *)
Definition lastDraw (st : State) : Prop :=
  match codeVerifier st with
  | None => draws st = 0
  | Some v => exists n, draws st = S n /\ v = secureRandom E n 100
  end.

(** What the component may hand to a collaborator. *)
Definition soundCall (c : Call) : Prop :=
  match c with
  | DoSSOLogin bearerToken csrfToken => bearerToken <> "" /\ csrfToken <> ""
  | FetchSessionTokenFromCodeChallenge server challengeToken verifier =>
      server = serverUrl P /\ challengeToken <> "" /\ verifier <> "" /\
      exists n, verifier = secureRandom E n 100
  | CreateClient url => url = serverUrl P
  | SetLoginError value => value = ""
  | GenerateSecureRandom byteLength => byteLength = 100
  | Sha256 _ | TryOpenURL _ => True
  end.

End SessionNotions.

Definition isGenerate (c : Call) : bool :=
  match c with
  | GenerateSecureRandom _ => true
  | _ => false
  end.

Definition isDoSSOLogin (c : Call) : bool :=
  match c with
  | DoSSOLogin _ _ => true
  | _ => false
  end.

Definition isTryAgain (ev : Event) : bool :=
  match ev with
  | TryAgainPressed => true
  | _ => false
  end.

(** The flow attempts among the calls: each draws once. *)
Definition attempts (cs : list Call) : nat := length (filter isGenerate cs).

(** The presses of "Try again" among the events. *)
Definition presses (evs : list Event) : nat := length (filter isTryAgain evs).

(** ** Handlers and effects apart

    [step] lets the render and its effects follow the handler at once.
    React runs the effects of a render later, on their own: until then
    the listener registered by the previous run stays in place. [tick]
    keeps the two apart: either an event is delivered to its handler,
    or the pending effects run. *)

(** The screen between two ticks: its state, and the [codeVerifier] of
    the render whose listener effect ran last, which React keeps to
    compare the dependencies of the next render with. *)
Record Screen := {
  now : State;
  effectDeps : option string
}.

Inductive Tick :=
| Deliver (ev : Event)
| EffectsRun.

Section Ticks.

Context (E : Env) (P : Props).

Definition tick (t : Tick) (s : Screen) : Screen * list Call :=
  match t with
  | Deliver ev =>
      let r := handle E P ev (now s) in
      ({| now := final r; effectDeps := effectDeps s |}, calls r)
  | EffectsRun =>
      let r := rerender (effectDeps s) (now s) in
      ({| now := final r;
          effectDeps := if mounted (now s) then codeVerifier (now s)
                        else effectDeps s |},
       calls r)
  end.

Fixpoint ticks (ts : list Tick) (s : Screen) : Screen * list Call :=
  match ts with
  | [] => (s, [])
  | t :: ts' =>
      let '(s1, c1) := tick t s in
      let '(s2, c2) := ticks ts' s1 in
      (s2, (c1 ++ c2)%list)
  end.

(** The screen once mounted, the effects of the first render run. *)
Definition mountedScreen : Screen :=
  {| now := final (mount (initial P)); effectDeps := None |}.

Definition attainable (s : Screen) : Prop :=
  exists ts, s = fst (ticks ts mountedScreen).

(** What holds between two ticks: while the screen is mounted, the one
    listener registered is the one of the last effect run; afterwards
    nothing of the screen is registered. *)
Definition Settled (s : Screen) : Prop :=
  (mounted (now s) = true -> Handled (effectDeps s) (now s)) /\
  (mounted (now s) = false -> listeners (now s) = [] /\ timers (now s) = []).

End Ticks.

(** ** Test doubles

    A concrete environment to run the component in: the constants of a
    pre-release build, messages in their default wording, and stand-ins
    for the libraries. The URL functions follow url-parse and
    querystringify on ASCII URLs. *)
Module Double.

(** The characters that end a key in the pattern of querystringify: a
    key is a run of characters other than these four, an [=] may follow
    it, and the value runs up to the next [&]. *)
Definition endsKey (c : ascii) : bool :=
  (c =? "=")%char || (c =? "?")%char || (c =? "#")%char || (c =? "&")%char.

Definition snoc (s : string) (c : ascii) : string := s ++ String c "".

Definition hexValue (c : ascii) : option nat :=
  let n := nat_of_ascii c in
  if ((48 <=? n) && (n <=? 57))%nat then Some (n - 48)
  else if ((65 <=? n) && (n <=? 70))%nat then Some (n - 55)
  else if ((97 <=? n) && (n <=? 102))%nat then Some (n - 87)
  else None.

(** [decodeURIComponent(input.replace(/\+/g, ' '))] on a string given by
    its bytes; [None] where it throws for an escape that is cut short. *)
Fixpoint decode (s : string) : option string :=
  match s with
  | EmptyString => Some EmptyString
  | String c s' =>
      if (c =? "+")%char then option_map (String " ") (decode s')
      else if (c =? "%")%char then
        match s' with
        | String h (String l s'') =>
            match hexValue h, hexValue l with
            | Some a, Some b =>
                option_map (String (ascii_of_nat (16 * a + b))) (decode s'')
            | _, _ => None
            end
        | _ => None
        end
      else option_map (String c) (decode s')
  end.

(** [if (key === null || value === null || key in result) continue;
    result[key] = value] *)
Definition addNew (k v : string) (o : Obj.t) : Obj.t :=
  match decode k, decode v with
  | Some k, Some v =>
      match Obj.get k o with
      | Some _ => o
      | None => (o ++ [(k, v)])%list
      end
  | _, _ => o
  end.

(** Where the scan of the pattern stands: between matches, inside a
    key, or inside the value of a key. *)
Inductive Scan :=
| Between
| InKey (k : string)
| InValue (k v : string).

Fixpoint scan (s : string) (at_ : Scan) (o : Obj.t) : Obj.t :=
  match s with
  | EmptyString =>
      match at_ with
      | Between => o
      | InKey k => addNew k "" o
      | InValue k v => addNew k v o
      end
  | String c s' =>
      match at_ with
      | Between =>
          if endsKey c then scan s' Between o
          else scan s' (InKey (String c "")) o
      | InKey k =>
          if (c =? "=")%char then scan s' (InValue k "") o
          else if (c =? "&")%char then scan s' Between (addNew k "" o)
          else if endsKey c then scan s' (InValue k (String c "")) o
          else scan s' (InKey (snoc k c)) o
      | InValue k v =>
          if (c =? "&")%char then scan s' Between (addNew k v o)
          else scan s' (InValue k (snoc v c)) o
      end
  end.

(** [qs.parse(query)] *)
Definition qs_parse (query : string) : Obj.t := scan query Between [].

(** [s] cut before the first [c]. *)
Fixpoint cut (c : ascii) (s : string) : string * string :=
  match s with
  | EmptyString => ("", "")
  | String a s' =>
      if (a =? c)%char then ("", s)
      else let '(l, r) := cut c s' in (String a l, r)
  end.

(** A parsed URL: what comes before the query, the query, the hash. *)
Record Url := { base : string; query : Obj.t; hash : string }.

Definition urlParse (url : string) : Url :=
  let '(rest, h) := cut "#" url in
  let '(b, q) := cut "?" rest in
  {| base := b; query := qs_parse q; hash := h |}.

Definition set_query (s : string) (u : Url) : Url :=
  {| base := base u; query := qs_parse s; hash := hash u |}.

Definition hexDigit (n : nat) : ascii :=
  if (n <? 10)%nat then ascii_of_nat (48 + n) else ascii_of_nat (55 + n).

Definition unreserved (c : ascii) : bool :=
  let n := nat_of_ascii c in
  ((48 <=? n) && (n <=? 57) || (65 <=? n) && (n <=? 90)
   || (97 <=? n) && (n <=? 122))%nat
  || existsb (Ascii.eqb c) (list_ascii_of_string "-_.!~*'()").

(** [encodeURIComponent] on a string given by its bytes. *)
Fixpoint encode (s : string) : string :=
  match s with
  | EmptyString => EmptyString
  | String c s' =>
      if unreserved c then String c (encode s')
      else
        let n := nat_of_ascii c in
        String "%" (String (hexDigit (n / 16)) (String (hexDigit (n mod 16))
          (encode s')))
  end.

Definition qs_stringify (o : Obj.t) : string :=
  String.concat "&" (map (fun kv => encode (fst kv) ++ "=" ++ encode (snd kv)) o).

Definition toString (u : Url) : string :=
  let q := qs_stringify (query u) in
  base u ++ (if truthy q then "?" ++ q else "") ++ hash u.

(** [n] bytes, the same letter for one draw and another letter for the
    next. *)
Fixpoint repeatChar (c : ascii) (n : nat) : string :=
  match n with
  | 0 => EmptyString
  | S n' => String c (repeatChar c n')
  end.

Definition secureRandom (draw n : nat) : string :=
  repeatChar (ascii_of_nat (97 + draw mod 26)) n.

(** The server of the tests: it knows one challenge token. *)
Definition exchange (answer : SessionResponse)
    (server challengeToken verifier : string) : SessionResponse :=
  if challengeToken =? "chal1" then answer
  else SessionError (Object (Some "invalid challenge token")).

(** The schemes are those of the scenarios of the specification. *)
Definition env (os : OS) (answer : SessionResponse) : Env :=
  Build_Env
    "mmauth://" "mmauth-beta://" true os
    (fun _ defaultMessage => defaultMessage)
    secureRandom
    (fun s => "sha256(" ++ s ++ ")")
    (fun s => "base64url(" ++ s ++ ")")
    Url urlParse query set_query toString
    qs_stringify
    (exchange answer).

Definition props (loginError loginUrl : string) : Props :=
  {| loginError0 := loginError;
     loginUrl := loginUrl;
     serverUrl := "https://example.com" |}.

End Double.

(** ** Scenarios

    The environment and the props of the examples below: a pre-release
    build on Android whose server answers the challenge token [chal1]
    with a session, and a screen mounted without a login error. *)

Definition demoEnv : Env := Double.env android (SessionTokens "tok2" "csrf2").

Definition demoProps : Props :=
  Double.props "" "https://example.com/oauth/authorize?client_id=abc".

(** The screen right after mounting. *)
Definition demoMounted : State := final (mount (initial demoProps)).

(** The verifier of the first draw of the test double. *)
Definition demoVerifier : string := Double.secureRandom 0 100.

(** The screen after the timer of the first render has started the
    flow: the verifier of the first draw is current. *)
Definition demoAttempted : State :=
  final (session demoEnv demoProps [TimerFired 1] (initial demoProps)).



(** The screen of the scenarios, mounted with a login error. *)
Definition failedProps : Props :=
  Double.props "Sign in failed"
    "https://example.com/oauth/authorize?client_id=abc".

(** A login URL that already names a [redirect_to]. *)
Definition redirectedProps : Props :=
  Double.props ""
    "https://example.com/oauth/authorize?client_id=abc&redirect_to=elsewhere%3A%2F%2Fcb".

(** The same build on iOS. *)
Definition iosEnv : Env := Double.env ios (SessionTokens "tok2" "csrf2").

(** The screen after a callback that brought no token: the login-failed
    message is shown, and the timer of the first render is still
    pending. *)
Definition demoFailed : State :=
  final (session demoEnv demoProps [UrlOpened "mmauth-beta://callback"]
           (initial demoProps)).

(** The screen after the first attempt and the run of the effects that
    follows it: the listener is closed over the first verifier. *)
Definition demoArmed : Screen :=
  fst (ticks demoEnv demoProps [Deliver (TimerFired 1); EffectsRun]
         (mountedScreen demoProps)).

(** The same screen after a callback without tokens and a press of "Try
    again", the effects of the render that follows not yet run: the
    second verifier is stored, the listener is still the one closed
    over the first. *)
Definition demoWindow : Screen :=
  fst (ticks demoEnv demoProps
         [Deliver (UrlOpened "mmauth-beta://callback"); Deliver TryAgainPressed]
         demoArmed).

(** A login URL that names [scope] twice. *)
Definition repeatedProps : Props :=
  Double.props ""
    "https://example.com/oauth/authorize?scope=a&scope=b".

(** * The server icon: app/components/server_icon/index.tsx

    The component computes, from its props and the theme, what it hands
    to [CompassIcon] and to [Badge]. *)
Module ServerIcon.

(** A JavaScript number: NaN, an infinity, or a finite value; the
    finite doubles are among the rationals. *)
Inductive number :=
| NaN
| Infinity
| NegInfinity
| Finite (q : Q).

(** [n] as a condition: zero and NaN are falsy. *)
Definition truthyN (n : number) : bool :=
  match n with
  | NaN => false
  | Infinity | NegInfinity => true
  | Finite q => negb (Qeq_bool q 0)
  end.

(** [n > -1] *)
Definition gtMinusOne (n : number) : bool :=
  match n with
  | NaN | NegInfinity => false
  | Infinity => true
  | Finite q => negb (Qle_bool q (-1))
  end.

(** A style object, by its properties. *)
Definition Style := list (string * Z).

(** [styles], from [StyleSheet.create]. *)
Definition styles_badge : Style := [("left", 13%Z); ("top", (-8)%Z)].

Definition styles_unread : Style := [("left", 18%Z); ("top", (-5)%Z)].

(** The props; an optional prop that is left out is [None], and
    [onPress] is known by a name. *)
Record Props := {
  badgeBackgroundColor : option string;
  badgeBorderColor : option string;
  badgeColor : option string;
  badgeStyle : option Style;
  hasUnreads : bool;
  iconColor : option string;
  mentionCount : number;
  onPress : option string;
  size : option number;
  style : option Style;
  unreadStyle : option Style
}.

(** The colours of the theme that the component reads. *)
Record Theme := {
  sidebarHeaderTextColor : string;
  sidebarTeamBarBg : string
}.

(** What is rendered: the props of [View], [TouchableWithFeedback],
    [CompassIcon] and [Badge]. *)
Record Rendered := {
  view_style : option Style;
  touchable_disabled : bool;
  touchable_onPress : option string;
  icon_size : number;
  icon_name : string;
  icon_color : string;
  badge_borderColor : string;
  badge_backgroundColor : option string;
  badge_color : option string;
  badge_visible : bool;
  badge_style : Style * option Style;
  badge_value : number
}.

Section Render.

(** [changeOpacity] of [@utils/theme] and the theme of [useTheme]. *)
Context (changeOpacity : string -> Q -> string) (theme : Theme).

(** [Boolean(mentionCount || hasUnreads)] *)
Definition hasBadge (p : Props) : bool :=
  truthyN (mentionCount p) || hasUnreads p.

(** [mentionCount || (hasUnreads ? -1 : 0)] *)
Definition count (p : Props) : number :=
  if truthyN (mentionCount p) then mentionCount p
  else if hasUnreads p then Finite (-1) else Finite 0.

(** The array that [useMemo] computes. *)
Definition memoizedStyle (p : Props) : Style * option Style :=
  (match badgeStyle p with
   | Some s => s
   | None => styles_badge
   end,
   if gtMinusOne (count p) then None
   else Some (match unreadStyle p with
              | Some s => s
              | None => styles_unread
              end)).

Definition ServerIcon (p : Props) : Rendered :=
  {| view_style := style p;
     touchable_disabled := match onPress p with None => true | Some _ => false end;
     touchable_onPress := onPress p;
     icon_size := match size p with Some n => n | None => Finite 24 end;
     icon_name := "server-variant";
     icon_color :=
       if truthyO (iconColor p) then str (iconColor p)
       else changeOpacity (sidebarHeaderTextColor theme) 0.56;
     badge_borderColor :=
       if truthyO (badgeBorderColor p) then str (badgeBorderColor p)
       else sidebarTeamBarBg theme;
     badge_backgroundColor := badgeBackgroundColor p;
     badge_color := badgeColor p;
     badge_visible := hasBadge p;
     badge_style := memoizedStyle p;
     badge_value := count p |}.

End Render.

End ServerIcon.

(** An icon with three mentions and unreads, and an icon whose mention
    count is -1, without unreads; no optional prop is given. *)
Definition demoIcon : ServerIcon.Props :=
  ServerIcon.Build_Props None None None None true None
    (ServerIcon.Finite 3) None None None None.

Definition demoDot : ServerIcon.Props :=
  ServerIcon.Build_Props None None None None false None
    (ServerIcon.Finite (-1)) None None None None.

(** * Properties *)

(** ** Strings and objects *)

Lemma truthy_true s : truthy s = true <-> s <> "".
Proof.
  unfold truthy. rewrite negb_true_iff. apply String.eqb_neq.
Qed.

Lemma optEqb_refl a : optEqb a a = true.
Proof. destruct a; simpl; [apply String.eqb_refl | reflexivity]. Qed.

Lemma optEqb_eq a b : optEqb a b = true -> a = b.
Proof.
  destruct a, b; simpl; try discriminate; [|reflexivity].
  intros H. apply String.eqb_eq in H. now subst.
Qed.

Lemma startsWith_app p s : startsWith p (p ++ s) = true.
Proof.
  induction p as [|a p IH]; simpl; [reflexivity|].
  now rewrite Ascii.eqb_refl.
Qed.

Lemma startsWith_split p s :
  startsWith p s = true -> exists post, s = p ++ post.
Proof.
  revert s. induction p as [|a p IH]; intros s H; simpl in *.
  - now exists s.
  - destruct s as [|b s]; [discriminate|].
    apply andb_true_iff in H as [Hab H]. apply Ascii.eqb_eq in Hab. subst b.
    destruct (IH _ H) as [post ->]. now exists post.
Qed.

(** A string that starts with a non-empty prefix is not empty. *)
Lemma startsWith_truthy p s :
  p <> "" -> startsWith p s = true -> truthy s = true.
Proof.
  intros Hp H. destruct s; [|reflexivity].
  destruct p; [congruence | discriminate].
Qed.

(** Whatever starts with a longer prefix starts with the shorter one. *)
Lemma startsWith_shorter p q s :
  startsWith (p ++ q) s = true -> startsWith p s = true.
Proof.
  revert s. induction p as [|a p IH]; intros s H; simpl in *; [reflexivity|].
  destruct s as [|b s]; [discriminate|].
  apply andb_true_iff in H as [-> H]. simpl. now apply IH.
Qed.

(** [includes] finds exactly the occurrences of the pattern. *)
Lemma includes_spec p s :
  includes p s = true <-> exists pre post, s = pre ++ p ++ post.
Proof.
  split.
  - induction s as [|c s IH]; simpl; intros H.
    + rewrite orb_false_r in H. apply startsWith_split in H as [post ->].
      now exists "", post.
    + apply orb_true_iff in H as [H|H].
      * apply startsWith_split in H as [post ->]. now exists "", post.
      * destruct (IH H) as (pre & post & ->). now exists (String c pre), post.
  - intros (pre & post & ->). induction pre as [|c pre IH]; simpl.
    + destruct (p ++ post) eqn:Heq; simpl.
      * rewrite orb_false_r. rewrite <- Heq. apply startsWith_app.
      * rewrite <- Heq. now rewrite startsWith_app.
    + rewrite IH. apply orb_true_r.
Qed.

Module ObjFacts.

Import Obj.

Lemma get_set_same k v o : get k (set k v o) = Some v.
Proof.
  induction o as [|[k' v'] o IH]; simpl.
  - now rewrite String.eqb_refl.
  - destruct (k' =? k) eqn:Hk; simpl; now rewrite Hk.
Qed.

Lemma get_set_other k k' v o : k' <> k -> get k' (set k v o) = get k' o.
Proof.
  intros Hne. induction o as [|[k1 v1] o IH]; simpl.
  - destruct (k =? k') eqn:Hk; [|reflexivity].
    apply String.eqb_eq in Hk. congruence.
  - destruct (k1 =? k) eqn:Hk; simpl; [|now rewrite IH].
    apply String.eqb_eq in Hk. subst k1.
    destruct (k =? k') eqn:Hk'; [|reflexivity].
    apply String.eqb_eq in Hk'. congruence.
Qed.

(** Setting a property that is there leaves the keys as they are;
    setting a new one appends its key. *)
Lemma keys_set k v o :
  keys (set k v o) = if in_dec string_dec k (keys o) then keys o
                     else (keys o ++ [k])%list.
Proof.
  induction o as [|[k1 v1] o IH]; simpl; [reflexivity|].
  destruct (k1 =? k) eqn:Hk; simpl.
  - apply String.eqb_eq in Hk. subst k1.
    destruct (string_dec k k) as [He|Hn]; [reflexivity | congruence].
  - apply String.eqb_neq in Hk. rewrite IH.
    destruct (string_dec k1 k) as [Heq|Hne]; [congruence|].
    destruct (in_dec string_dec k (keys o)); reflexivity.
Qed.

Lemma In_keys_set k v o k' :
  In k' (keys (set k v o)) <-> In k' (keys o) \/ k' = k.
Proof.
  rewrite keys_set. destruct (in_dec string_dec k (keys o)) as [Hin|Hnin].
  - split; [tauto|]. intros [H| ->]; assumption.
  - rewrite in_app_iff. simpl. split; intros [H|H]; try tauto.
    + right. destruct H as [H|[]]. now symmetry.
    + right. now left.
Qed.

Lemma set_wf k v o : wf o -> wf (set k v o).
Proof.
  unfold wf. rewrite keys_set.
  destruct (in_dec string_dec k (keys o)) as [Hin|Hnin]; [tauto|].
  intros Hwf. apply NoDup_app; [assumption | constructor; [tauto|constructor] |].
  intros a Ha [<-|[]]. contradiction.
Qed.

Lemma set_fresh k v o : ~ In k (keys o) -> set k v o = (o ++ [(k, v)])%list.
Proof.
  induction o as [|[k1 v1] o IH]; simpl; intros Hnin; [reflexivity|].
  destruct (k1 =? k) eqn:Hk.
  - apply String.eqb_eq in Hk. tauto.
  - rewrite IH; tauto.
Qed.

Lemma spread_from o : forall acc,
  wf (acc ++ o)%list ->
  fold_left (fun a kv => set (fst kv) (snd kv) a) o acc = (acc ++ o)%list.
Proof.
  induction o as [|[k v] o IH]; intros acc Hwf; simpl.
  - now rewrite app_nil_r.
  - assert (Hnin : ~ In k (keys acc)).
    { unfold wf, keys in Hwf. rewrite map_app in Hwf. simpl in Hwf.
      apply NoDup_remove_2 in Hwf. rewrite in_app_iff in Hwf. tauto. }
    rewrite set_fresh by assumption.
    rewrite IH; rewrite <- app_assoc; simpl; [reflexivity | assumption].
Qed.

(** Copying an object gives the same object. *)
Lemma spread_wf o : wf o -> spread o = o.
Proof. intros Hwf. unfold spread. now rewrite spread_from. Qed.

End ObjFacts.

(** The contracts of the test doubles: the random source gives as many
    bytes as it is asked for, and a parsed query has no key twice. *)
Module DoubleFacts.

Import Double.

Lemma secureRandom_length draw n : String.length (secureRandom draw n) = n.
Proof.
  unfold secureRandom. generalize (ascii_of_nat (97 + draw mod 26)) as c.
  intros c. induction n as [|n IH]; simpl; [reflexivity|].
  now rewrite IH.
Qed.

Lemma addNew_wf k v o : Obj.wf o -> Obj.wf (addNew k v o).
Proof.
  unfold Obj.wf, Obj.keys, addNew. intros Hwf.
  destruct (decode k) as [k1|]; [|exact Hwf].
  destruct (decode v) as [v1|]; [|exact Hwf].
  clear k v. rename k1 into k, v1 into v.
  destruct (Obj.get k o) eqn:Hget; [exact Hwf|].
  rewrite map_app. simpl.
  assert (Hnot : ~ In k (map fst o)).
  { clear Hwf. induction o as [|[k' v'] o IH]; simpl in *; [tauto|].
    destruct (k' =? k) eqn:Hk; [discriminate|].
    apply String.eqb_neq in Hk. intros [H|H]; [congruence|]. now apply IH. }
  clear Hget. induction o as [|[k' v'] o IH]; simpl in *.
  - constructor; [tauto | constructor].
  - inversion Hwf; subst. constructor.
    + rewrite in_app_iff. simpl. intros [H|[H|[]]]; [tauto|].
      apply Hnot. now left.
    + apply IH; [assumption|]. intros H. apply Hnot. now right.
Qed.

Lemma scan_wf s : forall at_ o, Obj.wf o -> Obj.wf (scan s at_ o).
Proof.
  induction s as [|c s IH]; intros at_ o Hwf; simpl.
  - destruct at_; auto using addNew_wf.
  - destruct at_; repeat match goal with
      | |- context [if ?b then _ else _] => destruct b
      end; apply IH; auto using addNew_wf.
Qed.

Lemma query_wf u : Obj.wf (query (urlParse u)).
Proof.
  unfold urlParse. destruct (cut "#" u) as [rest h].
  destruct (cut "?" rest) as [b q]. simpl.
  apply scan_wf. constructor.
Qed.

End DoubleFacts.

(** ** The handlers *)

Section Handlers.

Context (E : Env) (P : Props).

Lemma redirectUrl_truthy : truthy (redirectUrl E) = true.
Proof.
  unfold redirectUrl. destruct (customUrlScheme E); reflexivity.
Qed.

(** The test of [onURLChange] comes down to the prefix. *)
Lemma matched_iff url :
  truthy url && startsWith (redirectUrl E) url = startsWith (redirectUrl E) url.
Proof.
  destruct (startsWith (redirectUrl E) url) eqn:H; [|apply andb_false_r].
  rewrite andb_true_r. apply startsWith_truthy with (p := redirectUrl E); auto.
  apply truthy_true, redirectUrl_truthy.
Qed.

Lemma onURLChange_unmatched cv url st :
  startsWith (redirectUrl E) url = false ->
  onURLChange E P cv url st = (tt, st, []).
Proof.
  intros H. unfold onURLChange. now rewrite matched_iff, H.
Qed.

Lemma onURLChange_direct cv url st :
  startsWith (redirectUrl E) url = true ->
  let q := Url_query E (urlParse E url) in
  truthyO (Obj.get "MMCHALLENGETOKEN" q) && truthyO cv = false ->
  onURLChange E P cv url st =
    (tt, fst (finish E (Obj.get "MMAUTHTOKEN" q) (Obj.get "MMCSRF" q) st),
         snd (finish E (Obj.get "MMAUTHTOKEN" q) (Obj.get "MMCSRF" q) st)).
Proof.
  intros H q Hq. unfold onURLChange. rewrite matched_iff, H. fold q.
  rewrite Hq. unfold finish, bind, ret. simpl.
  destruct (truthyO (Obj.get "MMAUTHTOKEN" q) && truthyO (Obj.get "MMCSRF" q));
    reflexivity.
Qed.

Lemma onURLChange_exchange cv url st :
  startsWith (redirectUrl E) url = true ->
  let q := Url_query E (urlParse E url) in
  let t := str (Obj.get "MMCHALLENGETOKEN" q) in
  truthyO (Obj.get "MMCHALLENGETOKEN" q) && truthyO cv = true ->
  onURLChange E P cv url st =
    match exchange E (serverUrl P) t (str cv) with
    | SessionTokens token csrf =>
        (tt, fst (finish E (Some token) (Some csrf) st),
         FetchSessionTokenFromCodeChallenge (serverUrl P) t (str cv)
           :: snd (finish E (Some token) (Some csrf) st))
    | SessionError _ =>
        (tt, fst (finish E (Obj.get "MMAUTHTOKEN" q) (Obj.get "MMCSRF" q) st),
         FetchSessionTokenFromCodeChallenge (serverUrl P) t (str cv)
           :: snd (finish E (Obj.get "MMAUTHTOKEN" q) (Obj.get "MMCSRF" q) st))
    end.
Proof.
  intros H q t Hq. unfold onURLChange. rewrite matched_iff, H. fold q.
  rewrite Hq. fold t. unfold finish, bind, ret, fetchSessionTokenFromCodeChallenge,
    call. simpl.
  destruct (exchange E (serverUrl P) t (str cv)) as [token csrf|err]; simpl.
  - destruct (truthy token && truthy csrf); reflexivity.
  - destruct (truthyO (Obj.get "MMAUTHTOKEN" q) && truthyO (Obj.get "MMCSRF" q));
      reflexivity.
Qed.

(** [onURLChange] touches nothing but [error]. *)
Lemma onURLChange_final cv url st :
  final (onURLChange E P cv url st) = st \/
  final (onURLChange E P cv url st) = errorSet (failed_to_login E) st.
Proof.
  destruct (startsWith (redirectUrl E) url) eqn:H.
  - destruct (truthyO (Obj.get "MMCHALLENGETOKEN" (Url_query E (urlParse E url)))
              && truthyO cv) eqn:Hq.
    + rewrite onURLChange_exchange by assumption.
      destruct (exchange _ _ _ _); unfold finish;
        match goal with |- context [if ?b then _ else _] => destruct b end;
        simpl; auto.
    + rewrite onURLChange_direct by assumption. unfold finish.
      match goal with |- context [if ?b then _ else _] => destruct b end;
        simpl; auto.
  - rewrite onURLChange_unmatched by assumption. now left.
Qed.

End Handlers.

(** ** Sequencing *)

Lemma final_bind (A B : Type) (m : M A) (k : A -> M B) st :
  final (bind m k st) = final (k (fst (fst (m st))) (final (m st))).
Proof.
  unfold bind, final. destruct (m st) as [[a st1] c1]. simpl.
  now destruct (k a st1) as [[b st2] c2].
Qed.

Lemma calls_bind (A B : Type) (m : M A) (k : A -> M B) st :
  calls (bind m k st) =
    (calls (m st) ++ calls (k (fst (fst (m st))) (final (m st))))%list.
Proof.
  unfold bind, final, calls. destruct (m st) as [[a st1] c1]. simpl.
  now destruct (k a st1) as [[b st2] c2].
Qed.

Lemma modify_then (A : Type) (f : State -> State) (m : M A) st :
  bind (modify f) (fun _ => m) st = m (f st).
Proof.
  unfold bind, modify. now destruct (m (f st)) as [[a s] c].
Qed.

(** ** The flow attempt and the invariant of the registries *)

Section Invariant.

Context (E : Env) (P : Props).

Lemma init_calls resetErrors st :
  calls (init E P resetErrors st) =
    ((if resetErrors then [SetLoginError ""; CreateClient (serverUrl P)]
      else []) ++
     [GenerateSecureRandom 100; Sha256 (drawn E st);
      TryOpenURL (loginUrlWith E P (loginQuery E P (challengeOf E (drawn E st))))])%list.
Proof.
  destruct st as [m e l cv ls sub ts to n d].
  destruct resetErrors, m; reflexivity.
Qed.

Lemma init_final resetErrors st :
  final (init E P resetErrors st) =
    let st1 := if resetErrors then with_loginError "" (errorSet "" st) else st in
    let st2 := with_draws (S (draws st)) st1 in
    if mounted st then with_codeVerifier (Some (drawn E st)) st2 else st2.
Proof.
  destruct st as [m e l cv ls sub ts to n d].
  destruct resetErrors, m; reflexivity.
Qed.

Lemma rerender_same st : rerender (codeVerifier st) st = (tt, st, []).
Proof.
  unfold rerender. rewrite optEqb_refl, andb_false_r. reflexivity.
Qed.

(** An event from Linking reaches the [onURLChange] of the last render
    and nothing else. *)
Lemma step_UrlOpened url st :
  Inv st -> mounted st = true ->
  step E P (UrlOpened url) st = onURLChange E P (codeVerifier st) url st.
Proof.
  intros HI Hm. destruct (inv_listener _ HI Hm) as (id & Hls & _).
  unfold step, handle, bind. rewrite Hls. simpl. unfold bind.
  pose proof (onURLChange_final E P (codeVerifier st) url st) as Hfin.
  destruct (onURLChange E P (codeVerifier st) url st) as [[[] st1] c1].
  unfold final in Hfin. simpl in Hfin. simpl.
  assert (Hcv : codeVerifier st1 = codeVerifier st).
  { destruct Hfin as [-> | ->]; [reflexivity|].
    unfold errorSet. now destruct (mounted st). }
  rewrite <- Hcv, rerender_same. now rewrite !app_nil_r.
Qed.

Lemma step_gone ev st :
  Inv st -> mounted st = false -> step E P ev st = (tt, st, []).
Proof.
  intros HI Hm. destruct (inv_gone _ HI Hm) as [Hls Hts].
  unfold step, bind, rerender.
  assert (Hh : handle E P ev st = (tt, st, [])).
  { destruct ev as [url|id| |e|]; unfold handle.
    - now rewrite Hls.
    - now rewrite Hts.
    - now rewrite Hm.
    - unfold onError. destruct (onErrorMessage E e); [|reflexivity].
      unfold setError, modify. cbv beta. now rewrite Hm.
    - now rewrite Hm. }
  rewrite Hh, Hm. reflexivity.
Qed.

Lemma Inv_mount : Inv (final (mount (initial P))).
Proof.
  split; simpl; intros H; try discriminate.
  - now exists 0.
  - exists 1. auto.
Qed.

Lemma filter_other (A : Type) (id : nat) (x : A) :
  filter (fun l : nat * A => negb (fst l =? id)%nat) [(id, x)] = [].
Proof. simpl. now rewrite Nat.eqb_refl. Qed.

(** A render has no call of its own. *)
Lemma rerender_calls deps st : calls (rerender deps st) = [].
Proof.
  unfold rerender. destruct (mounted st && negb (optEqb deps (codeVerifier st)));
    [|reflexivity].
  unfold bind, removeListener, listenerEffect, addEventListener, modify.
  reflexivity.
Qed.

Lemma step_unfold ev st :
  step E P ev st =
    (tt, final (rerender (codeVerifier st) (final (handle E P ev st))),
     calls (handle E P ev st)).
Proof.
  unfold step, bind, final, calls.
  destruct (handle E P ev st) as [[[] st1] c1]. simpl.
  pose proof (rerender_calls (codeVerifier st) st1) as Hc.
  destruct (rerender (codeVerifier st) st1) as [[[] st2] c2].
  unfold calls in Hc. simpl in *. subst c2. now rewrite app_nil_r.
Qed.

Lemma Inv_Handled st :
  Inv st -> mounted st = true -> Handled (codeVerifier st) st.
Proof.
  intros [Hl Ht _] Hm. split; auto.
Qed.

(** The render after a handler puts the registry in step with the
    state: the listener is replaced exactly when the verifier differs
    from the one it closed over. *)
Lemma rerender_final deps st :
  Handled deps st ->
  let st' := final (rerender deps st) in
  Inv st' /\ mounted st' = true /\
  error st' = error st /\ loginError st' = loginError st /\
  codeVerifier st' = codeVerifier st /\ timers st' = timers st /\
  draws st' = draws st.
Proof.
  intros [Hm (id & Hls & Hsub) Ht]. unfold rerender. rewrite Hm. simpl.
  destruct (optEqb deps (codeVerifier st)) eqn:Hd; simpl.
  - apply optEqb_eq in Hd. subst deps.
    unfold final, ret. simpl.
    split; [|now auto]. split; [now exists id | auto | congruence].
  - unfold final, bind, removeListener, listenerEffect, addEventListener, modify.
    simpl. rewrite Hsub. simpl. rewrite Hls, filter_other. simpl.
    split; [|now auto].
    split; simpl; [now exists (nextId st) | auto | congruence].
Qed.

Lemma Inv_step ev st : Inv st -> Inv (final (step E P ev st)).
Proof.
  intros HI. destruct (mounted st) eqn:Hm;
    [|rewrite step_gone by assumption; exact HI].
  pose proof (Inv_Handled _ HI Hm) as HH.
  rewrite step_unfold. unfold final at 1. simpl.
  destruct ev as [url|id| |e|].
  - apply rerender_final. unfold handle.
    destruct (inv_listener _ HI Hm) as (lid & Hls & Hsub). rewrite Hls. simpl.
    unfold bind.
    pose proof (onURLChange_final E P (codeVerifier st) url st) as Hfin.
    destruct (onURLChange E P (codeVerifier st) url st) as [[[] st1] c1].
    unfold final in *. simpl in *.
    destruct Hfin as [-> | ->]; [exact HH|].
    unfold errorSet. rewrite Hm. destruct HH as [H1 H2 H3]. split; auto.
  - apply rerender_final. unfold handle.
    destruct (existsb _ (timers st)); [|exact HH].
    unfold bind, modify.
    match goal with |- context [init E P false ?s] =>
      pose proof (init_final false s) as Hfin;
      destruct (init E P false s) as [[[] st1] c1] end.
    unfold final in *. simpl in *. subst st1. rewrite Hm.
    destruct HH as [H1 H2 (tid & Hto & Hts)]. split; simpl; auto.
    exists tid. split; [assumption|].
    destruct Hts as [-> | ->]; simpl; [|now right].
    destruct (negb (tid =? id)%nat); auto.
  - apply rerender_final. unfold handle. rewrite Hm. simpl.
    destruct (showsError st); [|exact HH].
    pose proof (init_final true st) as Hfin.
    destruct (init E P true st) as [[[] st1] c1].
    unfold final in *. simpl in *. subst st1. rewrite Hm.
    unfold errorSet. rewrite Hm.
    destruct HH as [H1 H2 H3]. split; simpl; auto.
  - apply rerender_final. unfold handle, onError.
    destruct (onErrorMessage E e); [|exact HH].
    unfold setError, modify, final. simpl. rewrite Hm.
    destruct HH as [H1 H2 H3]. split; simpl; auto.
  - unfold handle. rewrite Hm.
    destruct HH as [_ (lid & Hls & Hsub) (tid & Hto & Hts)].
    unfold rerender, final, bind, removeListener, clearTimeout, modify. simpl.
    rewrite Hsub. simpl. rewrite Hto. simpl. rewrite Hls, filter_other.
    split; simpl; try discriminate. intros _. split; [reflexivity|].
    destruct Hts as [-> | ->]; [apply filter_other | reflexivity].
Qed.

Lemma Inv_run evs : forall st, Inv st -> Inv (final (run E P evs st)).
Proof.
  induction evs as [|ev evs IH]; intros st HI; [exact HI|].
  simpl. unfold bind.
  pose proof (Inv_step ev st HI) as H1.
  destruct (step E P ev st) as [[[] st1] c1]. unfold final in H1. simpl in H1.
  specialize (IH st1 H1).
  destruct (run E P evs st1) as [[[] st2] c2]. exact IH.
Qed.

Lemma reachable_Inv st : reachable E P st -> Inv st.
Proof.
  intros [evs ->]. unfold session, bind.
  pose proof Inv_mount as H0.
  destruct (mount (initial P)) as [[[] st0] c0]. unfold final in H0. simpl in H0.
  pose proof (Inv_run evs st0 H0) as H1.
  destruct (run E P evs st0) as [[[] st1] c1]. exact H1.
Qed.

(** The states of a screen are closed under events. *)
Lemma final_run_snoc evs ev : forall st,
  final (run E P (evs ++ [ev]) st) = final (step E P ev (final (run E P evs st))).
Proof.
  induction evs as [|e evs IH]; intros st; simpl.
  - now rewrite final_bind.
  - now rewrite !final_bind, IH.
Qed.

Lemma reachable_mount : reachable E P (final (mount (initial P))).
Proof. exists []. unfold session. now rewrite final_bind. Qed.

Lemma reachable_step ev st :
  reachable E P st -> reachable E P (final (step E P ev st)).
Proof.
  intros [evs ->]. exists (evs ++ [ev])%list. unfold session.
  now rewrite !final_bind, final_run_snoc.
Qed.

End Invariant.

(** * The callback listener *)

Lemma emit_unmatched E P url st :
  startsWith (redirectUrl E) url = false ->
  forall ls, emit E P ls url st = (tt, st, []).
Proof.
  intros H ls. induction ls as [|[id cv] ls IH]; simpl; [reflexivity|].
  unfold bind. now rewrite onURLChange_unmatched, IH.
Qed.

(** C5: a URL-open event whose URL does not start with the redirect URL
    changes nothing: no collaborator is called, so [doSSOLogin] is not,
    the state is the one before, so the displayed error is, and the
    listeners stay registered as they were. *)
Theorem unmatched_url_changes_nothing
    (E : Env) (P : Props) (st : State) (url : string) :
  startsWith (redirectUrl E) url = false ->
  let r := step E P (UrlOpened url) st in
  calls r = [] /\
  (forall b c, ~ In (DoSSOLogin b c) (calls r)) /\
  final r = st /\
  showsError (final r) = showsError st /\
  errorText (final r) = errorText st /\
  listeners (final r) = listeners st.
Proof.
  intros H r.
  assert (Hr : r = (tt, st, [])).
  { unfold r, step, bind, handle. rewrite emit_unmatched by assumption.
    now rewrite rerender_same. }
  rewrite Hr. unfold calls, final. simpl. repeat split; auto.
Qed.

Lemma unmatched_url_changes_nothing_witness :
  startsWith (redirectUrl demoEnv) "other-scheme://foo" = false /\
  let r := step demoEnv demoProps (UrlOpened "other-scheme://foo") demoMounted in
  calls r = [] /\
  (forall b c, ~ In (DoSSOLogin b c) (calls r)) /\
  final r = demoMounted /\
  showsError (final r) = showsError demoMounted /\
  errorText (final r) = errorText demoMounted /\
  listeners (final r) = listeners demoMounted.
Proof.
  split; [reflexivity|].
  apply (unmatched_url_changes_nothing demoEnv demoProps demoMounted
           "other-scheme://foo").
  reflexivity.
Defined.

(** A URL that does not even start with the custom scheme is such an
    event. *)
Lemma foreign_scheme_unmatched E url :
  startsWith (customUrlScheme E) url = false ->
  startsWith (redirectUrl E) url = false.
Proof.
  intros H. destruct (startsWith (redirectUrl E) url) eqn:Hr; [|reflexivity].
  unfold redirectUrl in Hr. apply startsWith_shorter in Hr. congruence.
Qed.


Lemma demoAttempted_reachable : reachable demoEnv demoProps demoAttempted.
Proof. now exists [TimerFired 1]. Qed.






Lemma calls_run_repeat E P ev st c :
  step E P ev st = (tt, st, [c]) ->
  forall n, calls (run E P (repeat ev n) st) = repeat c n.
Proof.
  intros Hstep n. induction n as [|n IH]; simpl; [reflexivity|].
  rewrite calls_bind, Hstep. unfold final at 1. simpl. now rewrite IH.
Qed.

(** C4, as amended: for a URL-open event on a mounted screen whose URL
    starts with the redirect URL and carries a non-empty bearer token
    and a non-empty CSRF token, and either no challenge token or no
    current verifier, [doSSOLogin] is called once, with exactly that
    pair, and the exchange is not made. The event leaves the state as
    it was, listener included: nothing is discarded, and every further
    such event calls [doSSOLogin] again, [n] events [n] times. *)
Theorem direct_tokens_callback
    (E : Env) (P : Props) (st : State) (url b c : string) :
  reachable E P st -> mounted st = true ->
  startsWith (redirectUrl E) url = true ->
  Obj.get "MMAUTHTOKEN" (Url_query E (urlParse E url)) = Some b -> b <> "" ->
  Obj.get "MMCSRF" (Url_query E (urlParse E url)) = Some c -> c <> "" ->
  truthyO (Obj.get "MMCHALLENGETOKEN" (Url_query E (urlParse E url)))
    && truthyO (codeVerifier st) = false ->
  step E P (UrlOpened url) st = (tt, st, [DoSSOLogin b c]) /\
  forall n,
    calls (run E P (repeat (UrlOpened url) n) st) = repeat (DoSSOLogin b c) n.
Proof.
  intros Hreach Hm Hpre Hb Hb0 Hc Hc0 Hno.
  assert (Hstep : step E P (UrlOpened url) st = (tt, st, [DoSSOLogin b c])).
  { rewrite (step_UrlOpened E P url st (reachable_Inv E P st Hreach) Hm).
    rewrite (onURLChange_direct E P (codeVerifier st) url st Hpre Hno).
    rewrite Hb, Hc. unfold finish. simpl.
    apply truthy_true in Hb0, Hc0. now rewrite Hb0, Hc0. }
  split; [exact Hstep | now apply calls_run_repeat].
Qed.

Lemma direct_tokens_callback_witness :
  step demoEnv demoProps
    (UrlOpened "mmauth-beta://callback?MMAUTHTOKEN=tok1&MMCSRF=csrf1")
    demoAttempted =
  (tt, demoAttempted, [DoSSOLogin "tok1" "csrf1"]).
Proof.
  refine (proj1 (direct_tokens_callback demoEnv demoProps demoAttempted
            "mmauth-beta://callback?MMAUTHTOKEN=tok1&MMCSRF=csrf1"
            "tok1" "csrf1" demoAttempted_reachable _ _ _ _ _ _ _));
    try reflexivity; discriminate.
Defined.

(** C4, as stated, fails twice. Within one attempt, started by the
    timer, two callback events with the direct tokens call [doSSOLogin]
    twice. And a callback event that carries the direct tokens and a
    challenge token as well does make the exchange. *)
Lemma direct_tokens_callback_counterexample :
  calls (session demoEnv demoProps
           [TimerFired 1;
            UrlOpened "mmauth-beta://callback?MMAUTHTOKEN=tok1&MMCSRF=csrf1";
            UrlOpened "mmauth-beta://callback?MMAUTHTOKEN=tok1&MMCSRF=csrf1"]
           (initial demoProps)) =
    [GenerateSecureRandom 100;
     Sha256 demoVerifier;
     TryOpenURL
       (loginUrlWith demoEnv demoProps
          (loginQuery demoEnv demoProps (challengeOf demoEnv demoVerifier)));
     DoSSOLogin "tok1" "csrf1";
     DoSSOLogin "tok1" "csrf1"] /\
  calls (step demoEnv demoProps
           (UrlOpened
              "mmauth-beta://callback?MMAUTHTOKEN=tok1&MMCSRF=csrf1&MMCHALLENGETOKEN=chal1")
           demoAttempted) =
    [FetchSessionTokenFromCodeChallenge "https://example.com" "chal1" demoVerifier;
     DoSSOLogin "tok2" "csrf2"].
Proof. vm_compute. split; reflexivity. Qed.

(** * Teardown *)

Lemma run_gone E P evs st :
  Inv st -> mounted st = false -> run E P evs st = (tt, st, []).
Proof.
  intros HI Hm. induction evs as [|ev evs IH]; simpl; [reflexivity|].
  unfold bind. now rewrite step_gone, IH.
Qed.

Lemma unmount_gone E P st :
  Inv st -> mounted (final (step E P Unmounted st)) = false.
Proof.
  intros HI. destruct (mounted st) eqn:Hm.
  - rewrite step_unfold. unfold final at 1. simpl. unfold handle. rewrite Hm.
    unfold rerender, final, bind, removeListener, clearTimeout, modify. simpl.
    reflexivity.
  - now rewrite step_gone.
Qed.

(** C6: once the screen is unmounted, Linking holds no listener of it
    and no timer of it is pending; whatever events are delivered
    afterwards, URL-open events and the firing of its timer among
    them, no collaborator is called, so [doSSOLogin] is not and no
    flow is started, and the state stays as the unmount left it. *)
Theorem unmounted_screen_is_inert
    (E : Env) (P : Props) (st : State) (evs : list Event) :
  reachable E P st ->
  let st' := final (step E P Unmounted st) in
  listeners st' = [] /\ timers st' = [] /\
  calls (run E P evs st') = [] /\
  (forall b c, ~ In (DoSSOLogin b c) (calls (run E P evs st'))) /\
  final (run E P evs st') = st'.
Proof.
  intros Hreach st'.
  pose proof (reachable_Inv E P st Hreach) as HI0.
  assert (HI : Inv st') by exact (Inv_step E P Unmounted st HI0).
  assert (Hm : mounted st' = false) by exact (unmount_gone E P st HI0).
  destruct (inv_gone _ HI Hm) as [Hls Hts].
  rewrite (run_gone E P evs st' HI Hm). unfold calls, final. simpl.
  repeat split; auto.
Qed.

Lemma unmounted_screen_is_inert_witness :
  calls (run demoEnv demoProps
           [UrlOpened "mmauth-beta://callback?MMAUTHTOKEN=tok1&MMCSRF=csrf1";
            TimerFired 1]
           (final (step demoEnv demoProps Unmounted demoMounted))) = [].
Proof.
  refine (proj1 (proj2 (proj2 (unmounted_screen_is_inert demoEnv demoProps
            demoMounted
            [UrlOpened "mmauth-beta://callback?MMAUTHTOKEN=tok1&MMCSRF=csrf1";
             TimerFired 1] _)))).
  exists []. reflexivity.
Defined.

(** * The verifier *)

Lemma onURLChange_fetch E P cv url st s t v :
  In (FetchSessionTokenFromCodeChallenge s t v)
     (calls (onURLChange E P cv url st)) ->
  cv = Some v.
Proof.
  intros Hin.
  destruct (startsWith (redirectUrl E) url) eqn:Hpre;
    [|now rewrite onURLChange_unmatched in Hin by assumption].
  destruct (truthyO (Obj.get "MMCHALLENGETOKEN" (Url_query E (urlParse E url)))
            && truthyO cv) eqn:Hq.
  - rewrite (onURLChange_exchange E P cv url st Hpre Hq) in Hin.
    apply andb_true_iff in Hq as [_ Hcv].
    destruct cv as [v'|]; [|discriminate]. simpl in Hin.
    assert (Hfin : forall b c,
              ~ In (FetchSessionTokenFromCodeChallenge s t v)
                   (snd (finish E b c st))).
    { intros b c. unfold finish.
      destruct (truthyO b && truthyO c); simpl; [|tauto].
      intros [H|[]]. discriminate. }
    destruct (exchange _ _ _ _); unfold calls in Hin; simpl in Hin;
      (destruct Hin as [Hin|Hin]; [now inversion Hin | now apply Hfin in Hin]).
  - rewrite (onURLChange_direct E P cv url st Hpre Hq) in Hin.
    unfold calls, finish in Hin. simpl in Hin.
    destruct (truthyO _ && truthyO _); simpl in Hin; [|tauto].
    destruct Hin as [H|[]]. discriminate.
Qed.

Lemma final_step E P ev st :
  final (step E P ev st) =
    final (rerender (codeVerifier st) (final (handle E P ev st))).
Proof. now rewrite step_unfold. Qed.

Lemma calls_step E P ev st :
  calls (step E P ev st) = calls (handle E P ev st).
Proof. now rewrite step_unfold. Qed.

(** What [init] leaves for the render. *)
Lemma Handled_init E P resetErrors deps st :
  Handled deps st ->
  Handled deps (final (init E P resetErrors st)) /\
  codeVerifier (final (init E P resetErrors st)) = Some (drawn E st).
Proof.
  intros [Hm Hl Ht]. rewrite init_final. simpl. rewrite Hm. unfold errorSet.
  rewrite Hm. destruct resetErrors; simpl; (split; [split; simpl; auto | reflexivity]).
Qed.

Lemma existsb_timer id (ts : list (nat * nat)) :
  In id (map fst ts) -> existsb (fun t => (fst t =? id)%nat) ts = true.
Proof.
  intros Hin. apply existsb_exists. apply in_map_iff in Hin as (t & <- & Hin).
  exists t. split; [assumption | apply Nat.eqb_refl].
Qed.

(** ** Handlers and effects apart *)

Section Effects.

Context (E : Env) (P : Props).

(** With the effects run right after each handler, [tick] is [step]. *)
Lemma step_as_ticks ev st :
  let r := ticks E P [Deliver ev; EffectsRun]
             {| now := st; effectDeps := codeVerifier st |} in
  now (fst r) = final (step E P ev st) /\ snd r = calls (step E P ev st).
Proof.
  simpl. rewrite final_step, calls_step, rerender_calls.
  now rewrite !app_nil_r.
Qed.

Lemma handle_gone ev st :
  mounted st = false -> listeners st = [] -> timers st = [] ->
  handle E P ev st = (tt, st, []).
Proof.
  intros Hm Hls Hts. destruct ev as [url|id| |e|]; unfold handle.
  - now rewrite Hls.
  - now rewrite Hts.
  - now rewrite Hm.
  - unfold onError. destruct (onErrorMessage E e); [|reflexivity].
    unfold setError, modify. cbv beta. now rewrite Hm.
  - now rewrite Hm.
Qed.

(** A handler other than the unmount leaves the registration alone. *)
Lemma Handled_handle ev d st :
  Handled d st -> ev <> Unmounted ->
  Handled d (final (handle E P ev st)) /\
  listeners (final (handle E P ev st)) = listeners st.
Proof.
  intros HH Hev. pose proof (handled_mounted _ _ HH) as Hm.
  destruct ev as [url|id| |e|]; [| | | |congruence]; unfold handle.
  - destruct (handled_listener _ _ HH) as (lid & Hls & Hsub). rewrite Hls. simpl.
    rewrite final_bind. unfold final at 1 3. simpl.
    destruct (onURLChange_final E P d url st) as [-> | ->];
      [now rewrite Hls|].
    unfold errorSet. rewrite Hm. simpl. destruct HH as [H1 H2 H3].
    split; [split; auto | now rewrite Hls].
  - destruct (existsb _ (timers st)); [|now split].
    rewrite modify_then. destruct (Handled_init E P false d
      (with_timers (filter (fun t => negb (fst t =? id)%nat) (timers st))
                   (timeout st) (nextId st) st)) as [H1 _].
    + destruct HH as [H1 H2 (tid & Hto & Hts)]. split; simpl; auto.
      exists tid. split; [assumption|].
      destruct Hts as [-> | ->]; simpl; [|now right].
      destruct (negb (tid =? id)%nat); auto.
    + split; [exact H1|]. rewrite init_final. simpl. rewrite Hm. reflexivity.
  - rewrite Hm. cbn [andb]. destruct (showsError st); [|now split].
    destruct (Handled_init E P true d st HH) as [H1 _].
    split; [exact H1|]. rewrite init_final. simpl. rewrite Hm. unfold errorSet.
    rewrite Hm. reflexivity.
  - unfold onError. destruct (onErrorMessage E e); [|now split].
    unfold setError, modify, final. simpl. rewrite Hm.
    destruct HH as [H1 H2 H3]. split; [split; auto | reflexivity].
Qed.

Lemma Settled_mounted : Settled (mountedScreen P).
Proof.
  split; simpl; intros H; [|discriminate].
  split; simpl; [reflexivity | now exists 0 | exists 1; auto].
Qed.

Lemma Settled_tick t s : Settled s -> Settled (fst (tick E P t s)).
Proof.
  intros [Hon Hoff]. destruct (mounted (now s)) eqn:Hm.
  - specialize (Hon eq_refl). destruct t as [ev|]; simpl.
    + assert (Hcase : ev = Unmounted \/ ev <> Unmounted)
        by (destruct ev; (now left) || (right; discriminate)).
      destruct Hcase as [-> | Hne].
      * unfold handle. rewrite Hm.
        destruct Hon as [_ (lid & Hls & Hsub) (tid & Hto & Hts)].
        unfold final, bind, removeListener, clearTimeout, modify. simpl.
        rewrite Hsub. simpl. rewrite Hto. simpl. rewrite Hls, filter_other.
        split; simpl; [discriminate|]. intros _. split; [reflexivity|].
        destruct Hts as [-> | ->]; [apply filter_other | reflexivity].
      * destruct (Handled_handle ev _ _ Hon Hne) as [HH _].
        pose proof (handled_mounted _ _ HH) as Hm1.
        split; simpl; [intros _; exact HH | congruence].
    + rewrite Hm.
      destruct (rerender_final _ _ Hon) as (HI & Hm1 & _ & _ & Hcv & _).
      split; simpl; [|congruence]. intros _. rewrite <- Hcv.
      now apply Inv_Handled.
  - specialize (Hoff eq_refl). destruct Hoff as [Hls Hts].
    destruct t as [ev|]; simpl.
    + rewrite (handle_gone ev _ Hm Hls Hts). unfold final. simpl.
      split; simpl; [congruence | auto].
    + unfold rerender. rewrite Hm. unfold final, ret. simpl.
      split; simpl; [congruence | auto].
Qed.

Lemma Settled_ticks ts : forall s, Settled s -> Settled (fst (ticks E P ts s)).
Proof.
  induction ts as [|t ts IH]; intros s HS; simpl; [exact HS|].
  pose proof (Settled_tick t s HS) as H1.
  destruct (tick E P t s) as [s1 c1]. simpl in H1.
  specialize (IH s1 H1). now destruct (ticks E P ts s1) as [s2 c2].
Qed.

Lemma attainable_Settled s : attainable E P s -> Settled s.
Proof. intros [ts ->]. apply Settled_ticks, Settled_mounted. Qed.

Lemma fst_ticks_app ts1 ts2 : forall s,
  fst (ticks E P (ts1 ++ ts2) s) = fst (ticks E P ts2 (fst (ticks E P ts1 s))).
Proof.
  induction ts1 as [|t ts1 IH]; intros s; simpl; [reflexivity|].
  destruct (tick E P t s) as [s1 c1]. specialize (IH s1).
  destruct (ticks E P (ts1 ++ ts2) s1) as [s2 c2].
  destruct (ticks E P ts1 s1) as [s3 c3]. simpl in *. exact IH.
Qed.

Lemma attainable_ticks ts s :
  attainable E P s -> attainable E P (fst (ticks E P ts s)).
Proof.
  intros [ts0 ->]. exists (ts0 ++ ts)%list. now rewrite fst_ticks_app.
Qed.

(** A callback reaches the listener of the last effect run. *)
Lemma deliver_UrlOpened url s :
  Settled s -> mounted (now s) = true ->
  snd (tick E P (Deliver (UrlOpened url)) s) =
    calls (onURLChange E P (effectDeps s) url (now s)).
Proof.
  intros [Hon _] Hm. destruct (handled_listener _ _ (Hon Hm)) as (lid & Hls & _).
  simpl. rewrite Hls. simpl. rewrite calls_bind. unfold calls at 3. simpl.
  apply app_nil_r.
Qed.

(** The exchange that a callback with a challenge token leads to. *)
Lemma deliver_exchange url t v s :
  Settled s -> mounted (now s) = true ->
  startsWith (redirectUrl E) url = true ->
  Obj.get "MMCHALLENGETOKEN" (Url_query E (urlParse E url)) = Some t ->
  t <> "" -> effectDeps s = Some v -> v <> "" ->
  exists rest,
    snd (tick E P (Deliver (UrlOpened url)) s) =
      FetchSessionTokenFromCodeChallenge (serverUrl P) t v :: rest.
Proof.
  intros HS Hm Hpre Hchal Ht Hd Hv. rewrite (deliver_UrlOpened url s HS Hm), Hd.
  assert (Hcond : truthyO (Obj.get "MMCHALLENGETOKEN" (Url_query E (urlParse E url)))
                  && truthyO (Some v) = true).
  { rewrite Hchal. simpl. apply truthy_true in Ht, Hv. now rewrite Ht, Hv. }
  rewrite (onURLChange_exchange E P (Some v) url (now s) Hpre Hcond), Hchal.
  simpl. destruct (exchange _ _ _ _); eexists; reflexivity.
Qed.

(** A flow attempt stores the verifier it draws and leaves the
    registration to the next effect run. *)
Lemma deliver_attempt ev s :
  Settled s -> mounted (now s) = true -> startsAttempt ev (now s) ->
  let s1 := fst (tick E P (Deliver ev) s) in
  mounted (now s1) = true /\
  codeVerifier (now s1) = Some (secureRandom E (draws (now s)) 100) /\
  listeners (now s1) = listeners (now s) /\
  effectDeps s1 = effectDeps s.
Proof.
  intros [Hon _] Hm Hev. specialize (Hon Hm). simpl.
  assert (Hne : ev <> Unmounted).
  { destruct Hev as [(id & -> & _) | [-> _]]; discriminate. }
  destruct (Handled_handle ev _ _ Hon Hne) as [HH Hls].
  split; [exact (handled_mounted _ _ HH)|]. split; [|now split].
  destruct Hev as [(id & -> & Hin) | [-> Hshow]]; unfold handle.
  - rewrite existsb_timer by assumption.
    rewrite modify_then, init_final. simpl. now rewrite Hm.
  - rewrite Hm, Hshow. cbn [andb]. rewrite init_final. simpl. rewrite Hm.
    unfold errorSet. now rewrite Hm.
Qed.

(** The effect run puts the registration in step with the state. *)
Lemma effects_run s :
  Settled s -> mounted (now s) = true ->
  let s1 := fst (tick E P EffectsRun s) in
  mounted (now s1) = true /\
  effectDeps s1 = codeVerifier (now s) /\
  codeVerifier (now s1) = codeVerifier (now s) /\
  exists id, listeners (now s1) = [(id, codeVerifier (now s))].
Proof.
  intros [Hon _] Hm. specialize (Hon Hm). simpl. rewrite Hm.
  destruct (rerender_final _ _ Hon) as (HI & Hm1 & _ & _ & Hcv & _).
  split; [exact Hm1|]. split; [reflexivity|]. split; [exact Hcv|].
  destruct (inv_listener _ HI Hm1) as (id & Hls & _).
  exists id. now rewrite Hls, Hcv.
Qed.

End Effects.

(** C7, as amended: on a mounted screen exactly one listener is
    registered, closed over the verifier of the render whose effect ran
    last. Every flow attempt, by the timer or by "Try again", stores
    the verifier it draws in place of the previous one, and leaves the
    registration as it is. When the effects of the render that follows
    run, the registration is replaced: exactly one listener is left,
    closed over the stored verifier. A callback event with a challenge
    token is exchanged with the verifier its listener closed over, and
    with no other: with the new verifier once those effects have run,
    and with the previous one, or not at all if there was none, when
    it is handled before they run. *)
Theorem listener_follows_effects (E : Env) (P : Props) (s : Screen) :
  attainable E P s -> mounted (now s) = true ->
  (exists id, listeners (now s) = [(id, effectDeps s)]) /\
  (forall ev, startsAttempt ev (now s) ->
     let s1 := fst (tick E P (Deliver ev) s) in
     codeVerifier (now s1) = Some (secureRandom E (draws (now s)) 100) /\
     listeners (now s1) = listeners (now s) /\
     effectDeps s1 = effectDeps s) /\
  (let s1 := fst (tick E P EffectsRun s) in
   effectDeps s1 = codeVerifier (now s) /\
   codeVerifier (now s1) = codeVerifier (now s) /\
   exists id, listeners (now s1) = [(id, codeVerifier (now s))]) /\
  (forall url t v,
     startsWith (redirectUrl E) url = true ->
     Obj.get "MMCHALLENGETOKEN" (Url_query E (urlParse E url)) = Some t ->
     t <> "" -> effectDeps s = Some v -> v <> "" ->
     exists rest,
       snd (tick E P (Deliver (UrlOpened url)) s) =
         FetchSessionTokenFromCodeChallenge (serverUrl P) t v :: rest) /\
  (forall url server t v,
     In (FetchSessionTokenFromCodeChallenge server t v)
        (snd (tick E P (Deliver (UrlOpened url)) s)) ->
     effectDeps s = Some v) /\
  (forall url, effectDeps s = None ->
     forall server t v,
       ~ In (FetchSessionTokenFromCodeChallenge server t v)
            (snd (tick E P (Deliver (UrlOpened url)) s))) /\
  (forall ev url t,
     startsAttempt ev (now s) ->
     secureRandom E (draws (now s)) 100 <> "" ->
     startsWith (redirectUrl E) url = true ->
     Obj.get "MMCHALLENGETOKEN" (Url_query E (urlParse E url)) = Some t ->
     t <> "" ->
     let s2 := fst (ticks E P [Deliver ev; EffectsRun] s) in
     exists rest,
       snd (tick E P (Deliver (UrlOpened url)) s2) =
         FetchSessionTokenFromCodeChallenge (serverUrl P) t
           (secureRandom E (draws (now s)) 100) :: rest).
Proof.
  intros Hatt Hm. pose proof (attainable_Settled E P s Hatt) as HS.
  assert (Hfetch : forall url server t v,
            In (FetchSessionTokenFromCodeChallenge server t v)
               (snd (tick E P (Deliver (UrlOpened url)) s)) ->
            effectDeps s = Some v).
  { intros url server t v Hin. rewrite (deliver_UrlOpened E P url s HS Hm) in Hin.
    now apply onURLChange_fetch in Hin. }
  split; [|split; [|split; [|split; [|split; [|split]]]]].
  - destruct HS as [Hon _]. destruct (handled_listener _ _ (Hon Hm)) as (id & Hls & _).
    now exists id.
  - intros ev Hev. now destruct (deliver_attempt E P ev s HS Hm Hev) as (_ & H).
  - now destruct (effects_run E P s HS Hm) as (_ & H).
  - intros url t v. now apply deliver_exchange.
  - exact Hfetch.
  - intros url Hnone server t v Hin. apply Hfetch in Hin. congruence.
  - intros ev url t Hev Hv Hpre Hchal Ht s2.
    pose proof (Settled_tick E P (Deliver ev) s HS) as HS1.
    destruct (deliver_attempt E P ev s HS Hm Hev) as (Hm1 & Hcv1 & _ & _).
    pose proof (Settled_tick E P EffectsRun _ HS1) as HS2.
    destruct (effects_run E P _ HS1 Hm1) as (Hm2 & Hd2 & _ & _).
    assert (Hs2 : s2 = fst (tick E P EffectsRun (fst (tick E P (Deliver ev) s)))).
    { reflexivity. }
    rewrite Hs2. apply deliver_exchange; auto. now rewrite Hd2, Hcv1.
Qed.

(** The timer of the first render starts the first attempt; once the
    effects have run, a callback with the challenge token is exchanged
    with the verifier of that attempt. *)
Lemma listener_follows_effects_witness :
  exists rest,
    snd (tick demoEnv demoProps
           (Deliver (UrlOpened "mmauth-beta://callback?MMCHALLENGETOKEN=chal1"))
           demoArmed) =
      FetchSessionTokenFromCodeChallenge "https://example.com" "chal1"
        demoVerifier :: rest.
Proof.
  refine (proj2 (proj2 (proj2 (proj2 (proj2 (proj2
            (listener_follows_effects demoEnv demoProps
               (mountedScreen demoProps) _ _))))))
            (TimerFired 1)
            "mmauth-beta://callback?MMCHALLENGETOKEN=chal1" "chal1" _ _ _ _ _).
  - exists []. reflexivity.
  - reflexivity.
  - left. exists 1. split; [reflexivity | now left].
  - discriminate.
  - reflexivity.
  - reflexivity.
  - discriminate.
Defined.

(** C7, as stated, fails: "Try again" has stored the second verifier,
    the effects of the render that follows have not run yet, and a
    callback event handled now is exchanged with the first verifier,
    the one the listener still registered closed over. *)
Lemma listener_follows_effects_counterexample :
  codeVerifier (now demoWindow) = Some (Double.secureRandom 1 100) /\
  listeners (now demoWindow) = [(2, Some (Double.secureRandom 0 100))] /\
  Double.secureRandom 1 100 <> Double.secureRandom 0 100 /\
  snd (tick demoEnv demoProps
         (Deliver (UrlOpened "mmauth-beta://callback?MMCHALLENGETOKEN=chal1"))
         demoWindow) =
    [FetchSessionTokenFromCodeChallenge "https://example.com" "chal1"
       (Double.secureRandom 0 100);
     DoSSOLogin "tok2" "csrf2"].
Proof.
  split; [reflexivity|]. split; [reflexivity|]. split; [discriminate|].
  reflexivity.
Qed.

(** * Starting the flow *)

Lemma timers_run E P evs : forall st,
  Inv st -> length (timers (final (run E P evs st))) <= 1.
Proof.
  intros st HI. pose proof (Inv_run E P evs st HI) as [_ Ht Hg].
  destruct (mounted (final (run E P evs st))) eqn:Hm.
  - destruct (Ht eq_refl) as (id & _ & [-> | ->]); simpl; lia.
  - destruct (Hg eq_refl) as [_ ->]. simpl. lia.
Qed.

(** C8, as amended: on first mount one deferred start of the flow is
    scheduled, with a delay of 1000 ms, whether or not a login error is
    present; mounting calls no collaborator, and no second timer is
    scheduled later. When the timer fires, the flow starts without
    resetting anything: a verifier is drawn and the browser is opened,
    the network client is not created anew, and [loginError] and
    [error] stay as they were. *)
Theorem mount_schedules_one_attempt (E : Env) (P : Props) :
  calls (mount (initial P)) = [] /\
  timers (final (mount (initial P))) = [(1, 1000)] /\
  loginError (final (mount (initial P))) = loginError0 P /\
  (forall evs, length (timers (final (session E P evs (initial P)))) <= 1) /\
  calls (step E P (TimerFired 1) (final (mount (initial P)))) =
    [GenerateSecureRandom 100;
     Sha256 (secureRandom E 0 100);
     TryOpenURL (loginUrlWith E P
                   (loginQuery E P (challengeOf E (secureRandom E 0 100))))] /\
  loginError (final (step E P (TimerFired 1) (final (mount (initial P))))) =
    loginError0 P /\
  error (final (step E P (TimerFired 1) (final (mount (initial P))))) = "" /\
  timers (final (step E P (TimerFired 1) (final (mount (initial P))))) = [].
Proof.
  split; [reflexivity|]. split; [reflexivity|]. split; [reflexivity|]. split.
  - intros evs. unfold session. rewrite final_bind.
    apply timers_run, Inv_mount.
  - assert (Hev : startsAttempt (TimerFired 1) (final (mount (initial P)))).
    { left. exists 1. split; [reflexivity | now left]. }
    rewrite calls_step, final_step.
    assert (Hh : handle E P (TimerFired 1) (final (mount (initial P))) =
                 init E P false
                   (with_timers [] (Some 1) 2 (final (mount (initial P))))).
    { reflexivity. }
    rewrite Hh, init_calls.
    split; [reflexivity|].
    assert (HH : Handled None
                   (final (init E P false
                      (with_timers [] (Some 1) 2 (final (mount (initial P))))))).
    { rewrite init_final. split; simpl; eauto. }
    destruct (rerender_final _ _ HH) as (_ & _ & He & Hl & _ & Ht & _).
    cbv zeta in He, Hl, Ht. change (codeVerifier (final (mount (initial P))))
      with (@None string).
    rewrite He, Hl, Ht, init_final. repeat split.
Qed.

(** C8, as stated, fails: a login error is present at mount, and the
    deferred attempt is scheduled all the same; when its timer fires,
    the flow starts. *)
Lemma mount_schedules_one_attempt_counterexample :
  showsError (final (mount (initial failedProps))) = true /\
  timers (final (mount (initial failedProps))) = [(1, 1000)] /\
  calls (session demoEnv failedProps [TimerFired 1] (initial failedProps)) =
    [GenerateSecureRandom 100;
     Sha256 demoVerifier;
     TryOpenURL
       "https://example.com/oauth/authorize?client_id=abc&redirect_to=mmauth-beta%3A%2F%2Fcallback&code_challenge=base64url(sha256(aaaaaaaaaaaaaaaaaaaaaaaaaaaaaaaaaaaaaaaaaaaaaaaaaaaaaaaaaaaaaaaaaaaaaaaaaaaaaaaaaaaaaaaaaaaaaaaaaaaa))"].
Proof. vm_compute. repeat split. Qed.

(** C2: every flow attempt asks the secure random source for 100
    bytes, once; the verifier is what the source returns, 100 bytes
    exactly for a source that returns as many bytes as it is asked for,
    and it is the one stored; and the [code_challenge] of the query of
    the URL that is opened is [urlSafeBase64Encode(sha256(verifier))]
    for that same verifier. *)
Theorem init_challenge (E : Env) (P : Props) (resetErrors : bool) (st : State) :
  let r := init E P resetErrors st in
  let verifier := secureRandom E (draws st) 100 in
  let query := loginQuery E P (urlSafeBase64Encode E (sha256_digest E verifier)) in
  calls r =
    ((if resetErrors then [SetLoginError ""; CreateClient (serverUrl P)] else [])
     ++ [GenerateSecureRandom 100;
         Sha256 verifier;
         TryOpenURL (Url_toString E
                       (Url_set_query E (qs_stringify E query)
                          (urlParse E (loginUrl P))))])%list /\
  ((forall draw n, String.length (secureRandom E draw n) = n) ->
   String.length verifier = 100) /\
  codeVerifier (final r) = (if mounted st then Some verifier else codeVerifier st) /\
  Obj.get "code_challenge" query =
    Some (urlSafeBase64Encode E (sha256_digest E verifier)).
Proof.
  intros r verifier query. split; [apply init_calls|].
  split; [intros Hlen; apply Hlen|]. split.
  - unfold r. rewrite init_final. simpl.
    destruct (mounted st) eqn:Hm, resetErrors; simpl; unfold errorSet;
      rewrite ?Hm; reflexivity.
  - apply ObjFacts.get_set_same.
Qed.

Lemma init_challenge_witness :
  String.length (secureRandom demoEnv (draws demoMounted) 100) = 100.
Proof.
  refine (proj1 (proj2 (init_challenge demoEnv demoProps false demoMounted)) _).
  exact DoubleFacts.secureRandom_length.
Defined.

(** C3, as amended: [init] builds the query of the login URL from the
    query object that [urlParse(loginUrl, true)] reports, an object
    without a key twice; what that parser does not report of
    [loginUrl], such as the later occurrences of a repeated key, is not
    in it. Every entry of that object whose key is neither
    [redirect_to] nor [code_challenge] is kept with its value and in
    its place; [redirect_to] is set to the custom scheme followed by
    [callback] and [code_challenge] to the challenge, whatever the
    object had under these two keys; no other key is added, the two
    come last when they are new, and no key occurs twice. The URL that
    is opened is the parsed [loginUrl] with [qs.stringify] of this
    object set as its query, as [toString] gives it. *)
Theorem login_query_merge (E : Env) (P : Props) (codeChallenge : string) :
  Obj.wf (Url_query E (urlParse E (loginUrl P))) ->
  let old := Url_query E (urlParse E (loginUrl P)) in
  let query := loginQuery E P codeChallenge in
  (forall k, k <> "redirect_to" -> k <> "code_challenge" ->
     Obj.get k query = Obj.get k old) /\
  Obj.get "redirect_to" query = Some (customUrlScheme E ++ "callback") /\
  Obj.get "code_challenge" query = Some codeChallenge /\
  (forall k, In k (Obj.keys query) <->
             In k (Obj.keys old) \/ k = "redirect_to" \/ k = "code_challenge") /\
  (exists added,
     Obj.keys query = (Obj.keys old ++ added)%list /\
     incl added ["redirect_to"; "code_challenge"]) /\
  NoDup (Obj.keys query) /\
  (forall resetErrors st,
     codeChallenge = challengeOf E (drawn E st) ->
     exists before,
       calls (init E P resetErrors st) =
         (before ++
          [TryOpenURL (Url_toString E
                         (Url_set_query E (qs_stringify E query)
                            (urlParse E (loginUrl P))))])%list /\
       forall url, ~ In (TryOpenURL url) before).
Proof.
  intros Hwf old query. unfold query, loginQuery.
  rewrite (ObjFacts.spread_wf _ Hwf). fold old.
  split; [|split; [|split; [|split; [|split; [|split]]]]].
  - intros k H1 H2. now rewrite !ObjFacts.get_set_other.
  - rewrite ObjFacts.get_set_other by discriminate.
    apply ObjFacts.get_set_same.
  - apply ObjFacts.get_set_same.
  - intros k. rewrite !ObjFacts.In_keys_set. tauto.
  - rewrite !ObjFacts.keys_set.
    destruct (in_dec string_dec "redirect_to" (Obj.keys old)) as [H1|H1];
      match goal with |- context [in_dec string_dec "code_challenge" ?l] =>
        destruct (in_dec string_dec "code_challenge" l) as [H2|H2] end.
    + exists []. split; [now rewrite app_nil_r | intros k []].
    + exists ["code_challenge"]. split; [reflexivity|].
      intros k [<-|[]]. simpl. auto.
    + exists ["redirect_to"]. split; [reflexivity|].
      intros k [<-|[]]. simpl. auto.
    + exists ["redirect_to"; "code_challenge"].
      split; [now rewrite <- app_assoc | intros k Hk; exact Hk].
  - apply ObjFacts.set_wf, ObjFacts.set_wf, Hwf.
  - intros resetErrors st ->. rewrite init_calls.
    unfold loginUrlWith, loginQuery.
    rewrite (ObjFacts.spread_wf _ Hwf). fold old.
    exists ((if resetErrors
             then [SetLoginError ""; CreateClient (serverUrl P)] else [])
            ++ [GenerateSecureRandom 100; Sha256 (drawn E st)])%list.
    split; [now rewrite <- app_assoc|].
    intros url Hin. apply in_app_or in Hin.
    destruct Hin as [Hin|Hin]; [destruct resetErrors|]; simpl in Hin;
      intuition discriminate.
Qed.

(** The scenario of the specification: the parameter [client_id] of the
    login URL is kept, the two parameters of the app follow it. *)
Lemma login_query_merge_witness :
  exists before,
    calls (init demoEnv demoProps false demoMounted) =
      (before ++
       [TryOpenURL
          "https://example.com/oauth/authorize?client_id=abc&redirect_to=mmauth-beta%3A%2F%2Fcallback&code_challenge=base64url(sha256(aaaaaaaaaaaaaaaaaaaaaaaaaaaaaaaaaaaaaaaaaaaaaaaaaaaaaaaaaaaaaaaaaaaaaaaaaaaaaaaaaaaaaaaaaaaaaaaaaaaa))"])%list /\
    forall url, ~ In (TryOpenURL url) before.
Proof.
  exact (proj2 (proj2 (proj2 (proj2 (proj2 (proj2
           (login_query_merge demoEnv demoProps
              (challengeOf demoEnv (drawn demoEnv demoMounted))
              (DoubleFacts.query_wf (loginUrl demoProps)))))))) false demoMounted
           eq_refl).
Defined.

(** C3, as stated, fails twice. The parameter [redirect_to] of
    [loginUrl] is not preserved: the URL that is opened has the
    callback of the app in its place. And of a parameter that
    [loginUrl] names twice only the first occurrence is preserved. *)
Lemma login_query_merge_counterexample :
  Url_query demoEnv (urlParse demoEnv (loginUrl redirectedProps)) =
    [("client_id", "abc"); ("redirect_to", "elsewhere://cb")] /\
  loginQuery demoEnv redirectedProps "ch" =
    [("client_id", "abc"); ("redirect_to", "mmauth-beta://callback");
     ("code_challenge", "ch")] /\
  calls (init demoEnv redirectedProps false
           (final (mount (initial redirectedProps)))) =
    [GenerateSecureRandom 100;
     Sha256 demoVerifier;
     TryOpenURL
       "https://example.com/oauth/authorize?client_id=abc&redirect_to=mmauth-beta%3A%2F%2Fcallback&code_challenge=base64url(sha256(aaaaaaaaaaaaaaaaaaaaaaaaaaaaaaaaaaaaaaaaaaaaaaaaaaaaaaaaaaaaaaaaaaaaaaaaaaaaaaaaaaaaaaaaaaaaaaaaaaaa))"] /\
  calls (init demoEnv repeatedProps false
           (final (mount (initial repeatedProps)))) =
    [GenerateSecureRandom 100;
     Sha256 demoVerifier;
     TryOpenURL
       "https://example.com/oauth/authorize?scope=a&redirect_to=mmauth-beta%3A%2F%2Fcallback&code_challenge=base64url(sha256(aaaaaaaaaaaaaaaaaaaaaaaaaaaaaaaaaaaaaaaaaaaaaaaaaaaaaaaaaaaaaaaaaaaaaaaaaaaaaaaaaaaaaaaaaaaaaaaaaaaa))"].
Proof. vm_compute. repeat split. Qed.

(** * Failing to open the browser *)

Lemma lower_app a b : lower (a ++ b) = lower a ++ lower b.
Proof. induction a as [|c a IH]; simpl; [reflexivity | now rewrite IH]. Qed.

Lemma matchesIgnoreCase_spec m :
  matchesIgnoreCase "no activity found to handle intent" m = true <->
  reportsNoActivity m.
Proof. apply includes_spec. Qed.

(** C9, as amended: when opening the link fails on a mounted screen,
    [onError] does not throw and calls no collaborator. The error
    becomes the no-browser message if the platform is Android and the
    failure carries a message in which the phrase "no activity found to
    handle intent" occurs, in whatever case; it becomes the generic
    link-failed message for every other failure, on another platform
    also when that phrase occurs. The message is the text displayed,
    followed by a full stop, unless the parent passes a login error,
    which is displayed instead. *)
Theorem open_failure_message (E : Env) (P : Props) (st : State) (e : Unknown) :
  mounted st = true ->
  let r := step E P (OpenURLFailed e) st in
  onErrorMessage E e <> None /\
  calls r = [] /\
  (forall m, Platform_OS E = android -> e = Object (Some m) ->
     reportsNoActivity m ->
     final r = with_error (failed_to_open_link_no_browser E) st) /\
  (Platform_OS E <> android \/
   (forall m, e <> Object (Some m)) \/
   (exists m, e = Object (Some m) /\ ~ reportsNoActivity m) ->
     final r = with_error (failed_to_open_link E) st) /\
  (loginError st = "" -> errorText (final r) = error (final r) ++ ".") /\
  (loginError st <> "" -> errorText (final r) = loginError st ++ ".").
Proof.
  intros Hm r.
  assert (Hr : forall message, onErrorMessage E e = Some message ->
                 r = (tt, with_error message st, [])).
  { intros message Hmsg. unfold r. rewrite step_unfold.
    unfold handle, onError. rewrite Hmsg.
    unfold setError, modify, final, calls. simpl. rewrite Hm.
    change (codeVerifier st) with (codeVerifier (with_error message st)) at 1.
    now rewrite rerender_same. }
  assert (Hsome : exists message, onErrorMessage E e = Some message).
  { unfold onErrorMessage, andThen.
    destruct e as [| |s|[m|]]; simpl; rewrite ?andb_false_r; eauto.
    destruct (OS_eqb (Platform_OS E) android); simpl; eauto.
    destruct (matchesIgnoreCase _ m); eauto. }
  destruct Hsome as [message Hmsg]. specialize (Hr message Hmsg).
  split; [congruence|]. split; [now rewrite Hr|].
  split; [|split; [|split]].
  - intros m Hos -> Hrep. apply matchesIgnoreCase_spec in Hrep.
    unfold onErrorMessage, andThen in Hmsg. simpl in Hmsg.
    rewrite Hos, Hrep in Hmsg. simpl in Hmsg. injection Hmsg as <-.
    now rewrite Hr.
  - intros Hother. rewrite Hr. unfold final. simpl. f_equal.
    unfold onErrorMessage, andThen in Hmsg.
    destruct Hother as [Hos | [Hno | (m & -> & Hrep)]].
    + destruct (Platform_OS E); try congruence;
        destruct e as [| |s|[m|]]; simpl in Hmsg;
        rewrite ?andb_false_r in Hmsg; simpl in Hmsg; congruence.
    + destruct e as [| |s|[m|]]; simpl in Hmsg;
        rewrite ?andb_false_r in Hmsg; simpl in Hmsg; try congruence.
      now specialize (Hno m).
    + simpl in Hmsg.
      destruct (matchesIgnoreCase _ m) eqn:Hmatch.
      * apply matchesIgnoreCase_spec in Hmatch. contradiction.
      * destruct (OS_eqb (Platform_OS E) android); simpl in Hmsg; congruence.
  - intros Hl. rewrite Hr. unfold errorText, final. simpl. now rewrite Hl.
  - intros Hl. rewrite Hr. unfold errorText, final. simpl.
    apply truthy_true in Hl. now rewrite Hl.
Qed.

Lemma open_failure_message_witness :
  final (step demoEnv demoProps
           (OpenURLFailed (Object (Some "No Activity found to handle Intent")))
           demoMounted) =
    with_error
      "The link failed to open. Please verify that a browser is installed on the device."
      demoMounted.
Proof.
  refine (proj1 (proj2 (proj2 (open_failure_message demoEnv demoProps demoMounted
            (Object (Some "No Activity found to handle Intent")) _)))
            "No Activity found to handle Intent" _ _ _);
    try reflexivity.
  now exists "", "".
Defined.

(** C9, as stated, fails twice. On iOS a failure that reports that no
    activity was found to handle the intent gets the generic message.
    And on Android, on a screen mounted with a login error, the message
    of the failure is stored but the text displayed is the login
    error. *)
Lemma open_failure_message_counterexample :
  matchesIgnoreCase "no activity found to handle intent"
    "No Activity found to handle Intent" = true /\
  error (final (step iosEnv demoProps
                  (OpenURLFailed (Object (Some "No Activity found to handle Intent")))
                  demoMounted)) =
    "The link failed to open. Please try again." /\
  error (final (session demoEnv failedProps
                  [TimerFired 1;
                   OpenURLFailed (Object (Some "No Activity found to handle Intent"))]
                  (initial failedProps))) =
    "The link failed to open. Please verify that a browser is installed on the device." /\
  errorText (final (session demoEnv failedProps
                  [TimerFired 1;
                   OpenURLFailed (Object (Some "No Activity found to handle Intent"))]
                  (initial failedProps))) =
    "Sign in failed.".
Proof. vm_compute. repeat split. Qed.

(** * Whole sessions *)

Lemma truthyO_str x : truthyO x = true -> str x <> "".
Proof. destruct x as [s|]; simpl; [apply truthy_true | discriminate]. Qed.

(** A render leaves the component's own state and the timers alone. *)
Lemma rerender_keeps deps st :
  let st' := final (rerender deps st) in
  mounted st' = mounted st /\ error st' = error st /\
  loginError st' = loginError st /\ codeVerifier st' = codeVerifier st /\
  timers st' = timers st /\ draws st' = draws st.
Proof.
  unfold rerender.
  destruct (mounted st && negb (optEqb deps (codeVerifier st)));
    [|unfold final, ret; simpl; auto 10].
  unfold final, bind, removeListener, listenerEffect, addEventListener, modify.
  simpl. destruct (subscription st); simpl; auto 10.
Qed.

Section Sessions.

Context (E : Env) (P : Props).

Lemma calls_finish_sound b c st :
  Forall (soundCall E P) (snd (finish E b c st)).
Proof.
  unfold finish. destruct (truthyO b && truthyO c) eqn:Hbc; simpl; [|constructor].
  apply andb_true_iff in Hbc as [Hb Hc]. constructor; [|constructor].
  split; now apply truthyO_str.
Qed.

(** What one event makes the component call. *)
Lemma step_calls_sound ev st :
  Inv st -> lastDraw E st ->
  Forall (soundCall E P) (calls (step E P ev st)).
Proof.
  intros HI HD. destruct (mounted st) eqn:Hm;
    [|rewrite step_gone by assumption; constructor].
  destruct ev as [url|id| |e|].
  - rewrite (step_UrlOpened E P url st HI Hm).
    destruct (startsWith (redirectUrl E) url) eqn:Hpre;
      [|rewrite onURLChange_unmatched by assumption; constructor].
    destruct (truthyO (Obj.get "MMCHALLENGETOKEN" (Url_query E (urlParse E url)))
              && truthyO (codeVerifier st)) eqn:Hq.
    + rewrite (onURLChange_exchange E P _ url st Hpre Hq).
      apply andb_true_iff in Hq as [Ht Hv].
      assert (Hfetch : soundCall E P
                (FetchSessionTokenFromCodeChallenge (serverUrl P)
                   (str (Obj.get "MMCHALLENGETOKEN" (Url_query E (urlParse E url))))
                   (str (codeVerifier st)))).
      { simpl. split; [reflexivity|]. split; [now apply truthyO_str|].
        split; [now apply truthyO_str|].
        unfold lastDraw in HD. destruct (codeVerifier st) as [v|]; [|discriminate].
        destruct HD as (n & _ & ->). now exists n. }
      destruct (exchange _ _ _ _); unfold calls; simpl;
        (constructor; [exact Hfetch | apply calls_finish_sound]).
    + rewrite (onURLChange_direct E P _ url st Hpre Hq). unfold calls. simpl.
      apply calls_finish_sound.
  - rewrite calls_step. unfold handle.
    destruct (existsb _ (timers st)); [|constructor].
    rewrite modify_then, init_calls. simpl. repeat constructor.
  - rewrite calls_step. unfold handle. rewrite Hm. simpl.
    destruct (showsError st); [|constructor].
    rewrite init_calls. simpl. repeat constructor.
  - rewrite calls_step. unfold handle, onError.
    destruct (onErrorMessage E e); constructor.
  - rewrite calls_step. unfold handle. rewrite Hm. constructor.
Qed.

Lemma lastDraw_step ev st :
  Inv st -> lastDraw E st -> lastDraw E (final (step E P ev st)).
Proof.
  intros HI HD. destruct (mounted st) eqn:Hm;
    [|now rewrite step_gone by assumption].
  rewrite final_step.
  destruct (rerender_keeps (codeVerifier st) (final (handle E P ev st)))
    as (_ & _ & _ & Hcv & _ & Hd).
  unfold lastDraw. rewrite Hcv, Hd. clear Hcv Hd.
  destruct ev as [url|id| |e|]; unfold handle.
  - destruct (inv_listener _ HI Hm) as (lid & Hls & _). rewrite Hls. simpl.
    rewrite final_bind. unfold final at 1. simpl.
    destruct (onURLChange_final E P (codeVerifier st) url st) as [-> | ->];
      [exact HD|]. unfold errorSet. rewrite Hm. exact HD.
  - destruct (existsb _ (timers st)); [|exact HD].
    rewrite modify_then, init_final. simpl. rewrite Hm. simpl.
    now exists (draws st).
  - rewrite Hm. simpl. destruct (showsError st); [|exact HD].
    rewrite init_final. simpl. rewrite Hm. simpl. now exists (draws st).
  - unfold onError. destruct (onErrorMessage E e); [|exact HD].
    unfold setError, modify, final. simpl. rewrite Hm. exact HD.
  - rewrite Hm. unfold final, bind, removeListener, clearTimeout, modify. simpl.
    destruct (subscription st); simpl; destruct (timeout st); exact HD.
Qed.

Lemma run_calls_sound evs : forall st,
  Inv st -> lastDraw E st ->
  Forall (soundCall E P) (calls (run E P evs st)).
Proof.
  induction evs as [|ev evs IH]; intros st HI HD; simpl; [constructor|].
  rewrite calls_bind. apply Forall_app. split.
  - now apply step_calls_sound.
  - apply IH; [now apply Inv_step | now apply lastDraw_step].
Qed.

Lemma lastDraw_run evs : forall st,
  Inv st -> lastDraw E st -> lastDraw E (final (run E P evs st)).
Proof.
  induction evs as [|ev evs IH]; intros st HI HD; simpl; [exact HD|].
  rewrite final_bind. apply IH; [now apply Inv_step | now apply lastDraw_step].
Qed.

Lemma session_calls_sound evs :
  Forall (soundCall E P) (calls (session E P evs (initial P))).
Proof.
  unfold session. rewrite calls_bind. apply Forall_app. split; [constructor|].
  apply run_calls_sound; [apply Inv_mount | reflexivity].
Qed.

End Sessions.

Lemma reachable_lastDraw E P st : reachable E P st -> lastDraw E st.
Proof.
  intros [evs ->]. unfold session. rewrite final_bind.
  apply lastDraw_run; [apply Inv_mount | reflexivity].
Qed.

(** X1: in no session is [doSSOLogin] called with an empty bearer token
    or an empty CSRF token. *)
Theorem doSSOLogin_never_empty
    (E : Env) (P : Props) (evs : list Event) (b c : string) :
  In (DoSSOLogin b c) (calls (session E P evs (initial P))) ->
  b <> "" /\ c <> "".
Proof.
  intros Hin. pose proof (session_calls_sound E P evs) as Hall.
  rewrite Forall_forall in Hall. exact (Hall _ Hin).
Qed.

Lemma doSSOLogin_never_empty_witness : "tok1" <> "" /\ "csrf1" <> "".
Proof.
  apply (doSSOLogin_never_empty demoEnv demoProps
           [UrlOpened "mmauth-beta://callback?MMAUTHTOKEN=tok1&MMCSRF=csrf1"]).
  vm_compute. left. reflexivity.
Defined.

(** X2: in no session is the exchange asked for with anything but the
    [serverUrl] of the props, a non-empty challenge token and a
    non-empty verifier that the secure random source returned for a
    request of 100 bytes. *)
Theorem exchange_arguments
    (E : Env) (P : Props) (evs : list Event) (s t v : string) :
  In (FetchSessionTokenFromCodeChallenge s t v)
     (calls (session E P evs (initial P))) ->
  s = serverUrl P /\ t <> "" /\ v <> "" /\
  exists n, v = secureRandom E n 100.
Proof.
  intros Hin. pose proof (session_calls_sound E P evs) as Hall.
  rewrite Forall_forall in Hall. exact (Hall _ Hin).
Qed.

Lemma exchange_arguments_witness :
  "https://example.com" = serverUrl demoProps /\ "chal1" <> "" /\
  demoVerifier <> "" /\
  exists n, demoVerifier = secureRandom demoEnv n 100.
Proof.
  apply (exchange_arguments demoEnv demoProps
           [TimerFired 1;
            UrlOpened "mmauth-beta://callback?MMCHALLENGETOKEN=chal1"]).
  vm_compute. do 3 right. left. reflexivity.
Defined.

(** X3: on every screen the stored verifier is what the last draw
    returned, and none is stored before the first draw; so a stored
    verifier has 100 bytes when the source returns as many bytes as it
    is asked for. *)
Theorem stored_verifier_is_last_draw (E : Env) (P : Props) (st : State) :
  reachable E P st ->
  match codeVerifier st with
  | None => draws st = 0
  | Some v =>
      (exists n, draws st = S n /\ v = secureRandom E n 100) /\
      ((forall draw n, String.length (secureRandom E draw n) = n) ->
       String.length v = 100)
  end.
Proof.
  intros Hreach. pose proof (reachable_lastDraw E P st Hreach) as HD.
  unfold lastDraw in HD. destruct (codeVerifier st) as [v|]; [|exact HD].
  split; [exact HD|]. intros Hlen. destruct HD as (n & _ & ->). apply Hlen.
Qed.

Lemma stored_verifier_is_last_draw_witness :
  (exists n, draws demoAttempted = S n /\
             demoVerifier = secureRandom demoEnv n 100) /\
  ((forall draw n, String.length (secureRandom demoEnv draw n) = n) ->
   String.length demoVerifier = 100).
Proof.
  exact (stored_verifier_is_last_draw demoEnv demoProps demoAttempted
           demoAttempted_reachable).
Defined.

(** How a matched callback ends. *)
Lemma matched_outcome E P st url :
  Inv st -> mounted st = true ->
  startsWith (redirectUrl E) url = true ->
  let r := step E P (UrlOpened url) st in
  (length (filter isDoSSOLogin (calls r)) = 1 /\ final r = st) \/
  (filter isDoSSOLogin (calls r) = [] /\
   final r = with_error (failed_to_login E) st).
Proof.
  intros HI Hm Hpre r. unfold r. rewrite (step_UrlOpened E P url st HI Hm).
  assert (Hfin : forall b c,
            (length (filter isDoSSOLogin (snd (finish E b c st))) = 1 /\
             fst (finish E b c st) = st) \/
            (filter isDoSSOLogin (snd (finish E b c st)) = [] /\
             fst (finish E b c st) = with_error (failed_to_login E) st)).
  { intros b c. unfold finish, errorSet. rewrite Hm.
    destruct (truthyO b && truthyO c); simpl; auto. }
  destruct (truthyO (Obj.get "MMCHALLENGETOKEN" (Url_query E (urlParse E url)))
            && truthyO (codeVerifier st)) eqn:Hq.
  - rewrite (onURLChange_exchange E P _ url st Hpre Hq).
    destruct (exchange _ _ _ _); unfold calls, final; simpl; apply Hfin.
  - rewrite (onURLChange_direct E P _ url st Hpre Hq).
    unfold calls, final. simpl. apply Hfin.
Qed.

(** X4: a URL-open event on a mounted screen whose URL starts with the
    redirect URL ends in exactly one of two ways: [doSSOLogin] is
    called once and the state stays as it was, an error shown before
    included; or [doSSOLogin] is not called and the error becomes the
    login-failed message, nothing else changing. *)
Theorem matched_callback_outcome
    (E : Env) (P : Props) (st : State) (url : string) :
  reachable E P st -> mounted st = true ->
  startsWith (redirectUrl E) url = true ->
  let r := step E P (UrlOpened url) st in
  (length (filter isDoSSOLogin (calls r)) = 1 /\ final r = st) \/
  (filter isDoSSOLogin (calls r) = [] /\
   final r = with_error (failed_to_login E) st).
Proof.
  intros Hreach. apply matched_outcome. exact (reachable_Inv E P st Hreach).
Qed.

Lemma matched_callback_outcome_witness :
  (length (filter isDoSSOLogin
     (calls (step demoEnv demoProps
               (UrlOpened "mmauth-beta://callback?MMAUTHTOKEN=tok1")
               demoAttempted))) = 1 /\
   final (step demoEnv demoProps
            (UrlOpened "mmauth-beta://callback?MMAUTHTOKEN=tok1")
            demoAttempted) = demoAttempted) \/
  (filter isDoSSOLogin
     (calls (step demoEnv demoProps
               (UrlOpened "mmauth-beta://callback?MMAUTHTOKEN=tok1")
               demoAttempted)) = [] /\
   final (step demoEnv demoProps
            (UrlOpened "mmauth-beta://callback?MMAUTHTOKEN=tok1")
            demoAttempted) =
     with_error (failed_to_login demoEnv) demoAttempted).
Proof.
  apply (matched_callback_outcome demoEnv demoProps demoAttempted
           "mmauth-beta://callback?MMAUTHTOKEN=tok1"
           demoAttempted_reachable); reflexivity.
Defined.

(** X5: a matched callback that can lead to no exchange, for want of a
    challenge token or of a stored verifier, and that does not carry
    both direct tokens, calls no collaborator and sets the login-failed
    message; so does a callback with only a challenge token that
    arrives before the first attempt has stored a verifier. *)
Theorem callback_without_usable_tokens
    (E : Env) (P : Props) (st : State) (url : string) :
  reachable E P st -> mounted st = true ->
  startsWith (redirectUrl E) url = true ->
  truthyO (Obj.get "MMCHALLENGETOKEN" (Url_query E (urlParse E url)))
    && truthyO (codeVerifier st) = false ->
  truthyO (Obj.get "MMAUTHTOKEN" (Url_query E (urlParse E url)))
    && truthyO (Obj.get "MMCSRF" (Url_query E (urlParse E url))) = false ->
  step E P (UrlOpened url) st = (tt, with_error (failed_to_login E) st, []).
Proof.
  intros Hreach Hm Hpre Hno Hdirect.
  rewrite (step_UrlOpened E P url st (reachable_Inv E P st Hreach) Hm).
  rewrite (onURLChange_direct E P _ url st Hpre Hno).
  unfold finish, errorSet. now rewrite Hdirect, Hm.
Qed.

Lemma callback_without_usable_tokens_witness :
  step demoEnv demoProps
    (UrlOpened "mmauth-beta://callback?MMCHALLENGETOKEN=chal1") demoMounted =
  (tt, with_error (failed_to_login demoEnv) demoMounted, []).
Proof.
  apply (callback_without_usable_tokens demoEnv demoProps demoMounted
           "mmauth-beta://callback?MMCHALLENGETOKEN=chal1");
    try reflexivity.
  exists []. reflexivity.
Defined.

(** X6: the [redirect_to] that [init] sends is the URL that the
    listener tests for: a URL-open event for it, whatever follows it in
    the URL, is never ignored on a mounted screen; it ends in
    [doSSOLogin] or in the login-failed message. *)
Theorem redirect_to_is_listened_for
    (E : Env) (P : Props) (codeChallenge rest : string) (st : State) :
  reachable E P st -> mounted st = true ->
  exists redirect_to,
    Obj.get "redirect_to" (loginQuery E P codeChallenge) = Some redirect_to /\
    startsWith (redirectUrl E) (redirect_to ++ rest) = true /\
    let r := step E P (UrlOpened (redirect_to ++ rest)) st in
    (length (filter isDoSSOLogin (calls r)) = 1 /\ final r = st) \/
    (filter isDoSSOLogin (calls r) = [] /\
     final r = with_error (failed_to_login E) st).
Proof.
  intros Hreach Hm. exists (redirectUrl E). split; [|split].
  - unfold loginQuery. rewrite ObjFacts.get_set_other by discriminate.
    apply ObjFacts.get_set_same.
  - apply startsWith_app.
  - apply matched_outcome;
      [exact (reachable_Inv E P st Hreach) | assumption | apply startsWith_app].
Qed.

Lemma redirect_to_is_listened_for_witness :
  exists redirect_to,
    Obj.get "redirect_to" (loginQuery demoEnv demoProps "ch") = Some redirect_to /\
    startsWith (redirectUrl demoEnv) (redirect_to ++ "?MMAUTHTOKEN=tok1") = true /\
    let r := step demoEnv demoProps
               (UrlOpened (redirect_to ++ "?MMAUTHTOKEN=tok1")) demoAttempted in
    (length (filter isDoSSOLogin (calls r)) = 1 /\ final r = demoAttempted) \/
    (filter isDoSSOLogin (calls r) = [] /\
     final r = with_error (failed_to_login demoEnv) demoAttempted).
Proof.
  apply (redirect_to_is_listened_for demoEnv demoProps "ch" "?MMAUTHTOKEN=tok1"
           demoAttempted demoAttempted_reachable).
  reflexivity.
Defined.

(** X7: pressing "Try again" on a mounted screen that shows an error
    clears [loginError] and [error], creates the network client for
    [serverUrl], and only then draws a verifier and opens the browser;
    afterwards no error is shown and the new verifier is stored. A
    timer of the first render that is still pending stays pending. *)
Theorem try_again_restarts (E : Env) (P : Props) (st : State) :
  mounted st = true -> showsError st = true ->
  let r := step E P TryAgainPressed st in
  let verifier := secureRandom E (draws st) 100 in
  calls r =
    [SetLoginError ""; CreateClient (serverUrl P); GenerateSecureRandom 100;
     Sha256 verifier;
     TryOpenURL (loginUrlWith E P (loginQuery E P (challengeOf E verifier)))] /\
  error (final r) = "" /\ loginError (final r) = "" /\
  showsError (final r) = false /\
  codeVerifier (final r) = Some verifier /\
  timers (final r) = timers st.
Proof.
  intros Hm Hshow r verifier. unfold r. rewrite calls_step, final_step.
  destruct (rerender_keeps (codeVerifier st) (final (handle E P TryAgainPressed st)))
    as (_ & He & Hl & Hcv & Ht & _).
  unfold showsError. rewrite He, Hl, Hcv, Ht. clear He Hl Hcv Ht.
  unfold handle. rewrite Hm, Hshow. cbn [andb].
  rewrite init_calls, init_final. simpl. rewrite Hm. unfold errorSet.
  rewrite Hm. simpl. repeat split.
Qed.

Lemma try_again_restarts_witness :
  showsError (final (step demoEnv demoProps TryAgainPressed demoFailed)) = false /\
  timers (final (step demoEnv demoProps TryAgainPressed demoFailed)) =
    timers demoFailed.
Proof.
  pose proof (try_again_restarts demoEnv demoProps demoFailed
                eq_refl eq_refl) as H.
  split; [exact (proj1 (proj2 (proj2 (proj2 H)))) |
          exact (proj2 (proj2 (proj2 (proj2 (proj2 H)))))].
Defined.

(** ** Counting the attempts *)

Lemma attempts_app a b : attempts (a ++ b) = attempts a + attempts b.
Proof. unfold attempts. now rewrite filter_app, length_app. Qed.

Section Budget.

Context (E : Env) (P : Props).

Lemma attempts_init resetErrors st :
  attempts (calls (init E P resetErrors st)) = 1.
Proof. rewrite init_calls. now destruct resetErrors. Qed.

Lemma attempts_onURLChange cv url st :
  attempts (calls (onURLChange E P cv url st)) = 0.
Proof.
  assert (Hfin : forall b c, attempts (snd (finish E b c st)) = 0).
  { intros b c. unfold finish. now destruct (truthyO b && truthyO c). }
  destruct (startsWith (redirectUrl E) url) eqn:Hpre;
    [|now rewrite onURLChange_unmatched by assumption].
  destruct (truthyO (Obj.get "MMCHALLENGETOKEN" (Url_query E (urlParse E url)))
            && truthyO cv) eqn:Hq.
  - rewrite (onURLChange_exchange E P cv url st Hpre Hq).
    destruct (exchange _ _ _ _); unfold calls; simpl; apply Hfin.
  - rewrite (onURLChange_direct E P cv url st Hpre Hq). apply Hfin.
Qed.

(** One event: the draws count the attempts, and an attempt is paid for
    by the timer of the first render or by a press of "Try again". *)
Lemma step_budget ev st :
  Inv st ->
  attempts (calls (step E P ev st)) + draws st = draws (final (step E P ev st)) /\
  draws (final (step E P ev st)) + length (timers (final (step E P ev st)))
    <= draws st + length (timers st) + (if isTryAgain ev then 1 else 0).
Proof.
  intros HI. destruct (mounted st) eqn:Hm;
    [|rewrite step_gone by assumption; unfold calls, final; simpl; lia].
  destruct ev as [url|id| |e|].
  - rewrite (step_UrlOpened E P url st HI Hm), attempts_onURLChange.
    destruct (onURLChange_final E P (codeVerifier st) url st) as [-> | ->];
      unfold errorSet; rewrite ?Hm; simpl; lia.
  - rewrite calls_step, final_step.
    destruct (rerender_keeps (codeVerifier st) (final (handle E P (TimerFired id) st)))
      as (_ & _ & _ & _ & Ht & Hd).
    rewrite Ht, Hd. clear Ht Hd. unfold handle.
    destruct (existsb _ (timers st)) eqn:Hex;
      [|unfold calls, final; simpl; lia].
    rewrite modify_then, attempts_init, init_final. simpl. rewrite Hm. simpl.
    destruct (inv_timer _ HI Hm) as (tid & _ & [Hts | Hts]); rewrite Hts in *;
      [|discriminate].
    simpl in Hex. rewrite orb_false_r in Hex. simpl. rewrite Hex. simpl. lia.
  - rewrite calls_step, final_step.
    destruct (rerender_keeps (codeVerifier st) (final (handle E P TryAgainPressed st)))
      as (_ & _ & _ & _ & Ht & Hd).
    rewrite Ht, Hd. clear Ht Hd. unfold handle. rewrite Hm. cbn [andb].
    destruct (showsError st); [|unfold calls, final; simpl; lia].
    rewrite attempts_init, init_final. simpl. rewrite Hm. unfold errorSet.
    rewrite Hm. simpl. lia.
  - rewrite calls_step, final_step.
    destruct (rerender_keeps (codeVerifier st) (final (handle E P (OpenURLFailed e) st)))
      as (_ & _ & _ & _ & Ht & Hd).
    rewrite Ht, Hd. clear Ht Hd. unfold handle, onError.
    destruct (onErrorMessage E e); unfold setError, modify, calls, final; simpl;
      rewrite ?Hm; simpl; lia.
  - rewrite calls_step, final_step.
    destruct (rerender_keeps (codeVerifier st) (final (handle E P Unmounted st)))
      as (_ & _ & _ & _ & Ht & Hd).
    rewrite Ht, Hd. clear Ht Hd. unfold handle. rewrite Hm.
    unfold calls, final, bind, removeListener, clearTimeout, modify. simpl.
    destruct (subscription st); simpl; destruct (timeout st); simpl;
      try lia;
      match goal with |- context [filter ?f ?l] =>
        pose proof (filter_length_le f l) end; lia.
Qed.

Lemma run_budget evs : forall st,
  Inv st ->
  attempts (calls (run E P evs st)) + draws st = draws (final (run E P evs st)) /\
  draws (final (run E P evs st)) + length (timers (final (run E P evs st)))
    <= draws st + length (timers st) + presses evs.
Proof.
  induction evs as [|ev evs IH]; intros st HI; simpl.
  - unfold calls, final, presses. simpl. lia.
  - rewrite calls_bind, final_bind, attempts_app.
    destruct (step_budget ev st HI) as [H1 H2].
    destruct (IH _ (Inv_step E P ev st HI)) as [H3 H4].
    unfold presses in *. simpl. destruct (isTryAgain ev); simpl in *; lia.
Qed.

End Budget.

(** X8: in every session the flow is started at most once more often
    than "Try again" is pressed: the timer of the first render starts
    it once at most, and nothing else does. *)
Theorem attempts_bounded_by_presses (E : Env) (P : Props) (evs : list Event) :
  attempts (calls (session E P evs (initial P))) <= 1 + presses evs /\
  attempts (calls (session E P evs (initial P))) =
    draws (final (session E P evs (initial P))).
Proof.
  unfold session. rewrite calls_bind, final_bind, attempts_app.
  destruct (run_budget E P evs _ (Inv_mount P)) as [H1 H2].
  simpl in *. lia.
Qed.

(** X12: the component never sets a login error of its own: whenever
    it calls [setLoginError], it is to clear it, and no event but a
    press of "Try again" touches [loginError]; such an event leaves
    [error] as it was or sets it to one of the three messages of the
    screen. *)
Theorem login_error_only_cleared
    (E : Env) (P : Props) (st : State) (ev : Event) :
  reachable E P st ->
  (forall v, In (SetLoginError v) (calls (step E P ev st)) -> v = "") /\
  (isTryAgain ev = false ->
   loginError (final (step E P ev st)) = loginError st /\
   (error (final (step E P ev st)) = error st \/
    error (final (step E P ev st)) = failed_to_login E \/
    error (final (step E P ev st)) = failed_to_open_link E \/
    error (final (step E P ev st)) = failed_to_open_link_no_browser E)).
Proof.
  intros Hreach. pose proof (reachable_Inv E P st Hreach) as HI. split.
  - intros v Hin.
    pose proof (step_calls_sound E P ev st HI (reachable_lastDraw E P st Hreach))
      as Hall.
    rewrite Forall_forall in Hall. exact (Hall _ Hin).
  - intros Hev. destruct (mounted st) eqn:Hm;
      [|rewrite step_gone by assumption; unfold final; simpl; auto].
    destruct ev as [url|id| |e|]; try discriminate.
    + rewrite (step_UrlOpened E P url st HI Hm).
      destruct (onURLChange_final E P (codeVerifier st) url st) as [-> | ->];
        unfold errorSet; rewrite ?Hm; simpl; auto.
    + rewrite final_step.
      destruct (rerender_keeps (codeVerifier st)
                  (final (handle E P (TimerFired id) st)))
        as (_ & He & Hl & _).
      rewrite He, Hl. clear He Hl. unfold handle.
      destruct (existsb _ (timers st)); [|unfold final; simpl; auto].
      rewrite modify_then, init_final. simpl. rewrite Hm. simpl. auto.
    + rewrite final_step.
      destruct (rerender_keeps (codeVerifier st)
                  (final (handle E P (OpenURLFailed e) st)))
        as (_ & He & Hl & _).
      rewrite He, Hl. clear He Hl. unfold handle, onError.
      destruct (onErrorMessage E e) as [message|] eqn:Hmsg;
        [|unfold final; simpl; auto].
      unfold setError, modify, final. simpl. rewrite Hm. simpl.
      split; [reflexivity|]. unfold onErrorMessage in Hmsg.
      destruct (andThen _ _) as [[|]|]; inversion Hmsg; auto.
    + rewrite final_step.
      destruct (rerender_keeps (codeVerifier st) (final (handle E P Unmounted st)))
        as (_ & He & Hl & _).
      rewrite He, Hl. clear He Hl. unfold handle. rewrite Hm.
      unfold final, bind, removeListener, clearTimeout, modify. simpl.
      destruct (subscription st); simpl; destruct (timeout st); simpl; auto.
Qed.

Lemma login_error_only_cleared_witness :
  loginError (final (step demoEnv failedProps (TimerFired 1)
                       (final (mount (initial failedProps))))) =
    "Sign in failed".
Proof.
  refine (proj1 (proj2 (login_error_only_cleared demoEnv failedProps
            (final (mount (initial failedProps))) (TimerFired 1) _) _)).
  - exists []. reflexivity.
  - reflexivity.
Defined.

(** * The server icon *)

Module ServerIconFacts.

Import ServerIcon.

Lemma truthyN_positive q : (0 < q)%Q -> truthyN (Finite q) = true.
Proof.
  intros Hpos. simpl. destruct (Qeq_bool q 0) eqn:Heq; [|reflexivity].
  apply Qeq_bool_iff in Heq. rewrite Heq in Hpos.
  now apply Qlt_irrefl in Hpos.
Qed.

Lemma truthyN_below q : (q <= -1)%Q -> truthyN (Finite q) = true.
Proof.
  intros Hle. simpl. destruct (Qeq_bool q 0) eqn:Heq; [|reflexivity].
  apply Qeq_bool_iff in Heq. rewrite Heq in Hle. now compute in Hle.
Qed.

Lemma gtMinusOne_positive q : (0 < q)%Q -> gtMinusOne (Finite q) = true.
Proof.
  intros Hpos. simpl. destruct (Qle_bool q (-1)) eqn:Hle; [|reflexivity].
  apply Qle_bool_iff in Hle.
  assert (H : (0 < -1)%Q) by (eapply Qlt_le_trans; eassumption).
  now compute in H.
Qed.

Lemma gtMinusOne_below q : (q <= -1)%Q -> gtMinusOne (Finite q) = false.
Proof.
  intros Hle. simpl. apply Qle_bool_iff in Hle. now rewrite Hle.
Qed.

(** X9: the badge is visible exactly when the value it is given is
    truthy, that is neither zero nor NaN. *)
Theorem badge_visible_iff_value
    (changeOpacity : string -> Q -> string) (theme : Theme) (p : Props) :
  badge_visible (ServerIcon changeOpacity theme p) =
    truthyN (badge_value (ServerIcon changeOpacity theme p)).
Proof.
  simpl. unfold hasBadge, count.
  destruct (truthyN (mentionCount p)) eqn:Hmc; [now rewrite Hmc|].
  now destruct (hasUnreads p).
Qed.

(** X10: the three looks of the badge. With a positive mention count
    the badge shows that count without the style of the unread dot,
    unreads or not. With no mention count (zero or NaN) and unreads it
    shows -1 with the style of the unread dot, [unreadStyle] if given
    and [styles.unread] otherwise. With neither it is hidden, its value
    being 0. *)
Theorem badge_looks
    (changeOpacity : string -> Q -> string) (theme : Theme) (p : Props) :
  let r := ServerIcon changeOpacity theme p in
  (forall q, mentionCount p = Finite q -> (0 < q)%Q ->
     badge_visible r = true /\ badge_value r = Finite q /\
     snd (badge_style r) = None) /\
  (truthyN (mentionCount p) = false -> hasUnreads p = true ->
     badge_visible r = true /\ badge_value r = Finite (-1) /\
     snd (badge_style r) =
       Some (match unreadStyle p with Some s => s | None => styles_unread end)) /\
  (truthyN (mentionCount p) = false -> hasUnreads p = false ->
     badge_visible r = false /\ badge_value r = Finite 0 /\
     snd (badge_style r) = None).
Proof.
  simpl. unfold hasBadge, memoizedStyle, count. split; [|split].
  - intros q Hq Hpos. rewrite Hq, (truthyN_positive q Hpos).
    now rewrite (gtMinusOne_positive q Hpos).
  - intros Hmc Hun. now rewrite Hmc, Hun.
  - intros Hmc Hun. now rewrite Hmc, Hun.
Qed.

Lemma badge_looks_witness :
  badge_visible (ServerIcon (fun c _ => c) (Build_Theme "#fff" "#000") demoIcon)
    = true /\
  badge_value (ServerIcon (fun c _ => c) (Build_Theme "#fff" "#000") demoIcon)
    = Finite 3 /\
  snd (badge_style (ServerIcon (fun c _ => c) (Build_Theme "#fff" "#000") demoIcon))
    = None.
Proof.
  apply (proj1 (badge_looks (fun c _ => c) (Build_Theme "#fff" "#000") demoIcon)
           3%Q); reflexivity.
Defined.

(** X11: a mention count of -1 or less is shown as it is, with the
    style of the unread dot, whether or not there are unreads. *)
Theorem negative_count_is_unread_dot
    (changeOpacity : string -> Q -> string) (theme : Theme) (p : Props) (q : Q) :
  mentionCount p = Finite q -> (q <= -1)%Q ->
  let r := ServerIcon changeOpacity theme p in
  badge_visible r = true /\ badge_value r = Finite q /\
  snd (badge_style r) =
    Some (match unreadStyle p with Some s => s | None => styles_unread end).
Proof.
  intros Hq Hle. simpl. unfold hasBadge, memoizedStyle, count.
  rewrite Hq, (truthyN_below q Hle). now rewrite (gtMinusOne_below q Hle).
Qed.

Lemma negative_count_is_unread_dot_witness :
  badge_visible (ServerIcon (fun c _ => c) (Build_Theme "#fff" "#000") demoDot)
    = true /\
  badge_value (ServerIcon (fun c _ => c) (Build_Theme "#fff" "#000") demoDot)
    = Finite (-1) /\
  snd (badge_style (ServerIcon (fun c _ => c) (Build_Theme "#fff" "#000") demoDot))
    = Some styles_unread.
Proof.
  apply (negative_count_is_unread_dot (fun c _ => c) (Build_Theme "#fff" "#000")
           demoDot (-1)%Q); [reflexivity | discriminate].
Defined.

End ServerIconFacts.
